(** * Museum trip planner (app.py): a shallow embedding and its properties

    The Flask application aggregates museum records per city from an upstream
    HTTP service, resolves a start coordinate and orders the records by a
    greedy nearest-neighbour loop ([a_star_search]).

    Modelling choices, all taken from the source:
    - Python floats are Rocq's primitive binary64 floats; [<] is
      [PrimFloat.ltb], so a NaN compares false with everything.
    - JSON values are [pyobj]; a dict is a [gmap string pyobj].
    - Museum records are dict objects mutated in place, so they live in a
      heap of locations; lists hold locations (references), not copies.
    - A Python expression that may raise has an [outcome]: [Returns v] or
      [Raises e].  Code that touches the heap or the network is written in
      the state-and-exception monad [M], whose results are [Ret v] and
      [Raise e].
    - The network ([requests.get]) is an oracle over the log of requests made
      so far; [geopy]'s [geodesic], [float()], [int()] and [str.lower()] are
      parameters of the development, and [geodesic] may raise.
    - The [while] loop of [a_star_search] is run for at most [length museums]
      iterations, which is proved to be enough.
    - [==] on JSON values is structural equality (the numeric coercions
      [1 == 1.0 == True] and [0.0 == -0.0] are not modelled).
    - Both handlers are decorated with flask-restx's [api.marshal_with]: the
      client gets the value the function returns only after it was rebuilt
      from the declared output model.  [PlanTrip_post_body] and
      [ShowMuseums_post_body] are the functions as written, [PlanTrip_post]
      and [ShowMuseums_post] the decorated handlers that serve the requests.
      The conversions [str()] and [float()] that the output fields apply to a
      value are a parameter, [field_format].  [api.expect] only documents the
      input model (validation is off by default) and is left out.
    - [print] calls carry no behaviour and are left out. *)

From Stdlib Require Import ZArith String Ascii List Floats Lia Permutation.
From stdpp Require Import gmap strings list fin_maps.

Local Set Warnings "-register-all".
Local Open Scope string_scope.
Local Open Scope list_scope.

(** ** Python values *)

Inductive pyobj :=
| PNone
| PBool (b : bool)
| PInt (z : Z)
| PFloat (f : float)
| PStr (s : string)
| PList (l : list pyobj)
| PDict (d : gmap string pyobj).

Abbreviation dict := (gmap string pyobj).

Global Instance float_eq_dec : EqDecision float.
Proof.
  intros x y. destruct (PrimFloat.Leibniz.eqb x y) eqn:E.
  - left. by apply FloatAxioms.Leibniz.eqb_spec.
  - right. intros H. apply FloatAxioms.Leibniz.eqb_spec in H. congruence.
Defined.

Fixpoint pyobj_eq_dec (x y : pyobj) {struct x} : Decision (x = y).
Proof.
  refine (match x, y with
  | PNone, PNone => left eq_refl
  | PBool a, PBool b => cast_if (decide (a = b))
  | PInt a, PInt b => cast_if (decide (a = b))
  | PFloat a, PFloat b => cast_if (decide (a = b))
  | PStr a, PStr b => cast_if (decide (a = b))
  | PList a, PList b => cast_if (@list_eq_dec _ pyobj_eq_dec a b)
  | PDict a, PDict b => cast_if (@gmap_eq_dec _ _ _ _ pyobj_eq_dec a b)
  | _, _ => right _
  end); try abstract congruence.
Defined.

Global Instance pyobj_eqdec : EqDecision pyobj := pyobj_eq_dec.

(** [Point = namedtuple('Point', ['latitude', 'longitude'])]: the fields hold
    whatever objects the caller passes. *)
Record Point := mkPoint { latitude : pyobj; longitude : pyobj }.

(** ** Exceptions and results *)

Inductive exn :=
| RequestException
| JSONDecodeError
| KeyError
| ValueError
| TypeError
| AttributeError
| IndexError
| SystemError.

Global Instance exn_eq_dec : EqDecision exn.
Proof. solve_decision. Defined.

(** [OutOfFuel] is not a Python outcome: it marks a loop of the model that was
    given too few iterations. *)
Inductive res (A : Type) :=
| Ret (a : A)
| Raise (e : exn)
| OutOfFuel.
Arguments Ret {A} a.
Arguments Raise {A} e.
Arguments OutOfFuel {A}.

(** What a Python expression, or a call into a library or the network, comes
    back with. *)
Inductive outcome (A : Type) :=
| Returns (a : A)
| Raises (e : exn).
Arguments Returns {A} a.
Arguments Raises {A} e.

Definition of_outcome {A} (o : outcome A) : res A :=
  match o with Returns a => Ret a | Raises e => Raise e end.

Definition of_option {A} (e : exn) (o : option A) : outcome A :=
  match o with Some a => Returns a | None => Raises e end.

(** ** The world: the heap of dict objects and the log of HTTP requests *)

Definition loc := nat.

Record world := World { heap : gmap loc dict; requests : list string }.

Definition set_heap (h : gmap loc dict) (w : world) : world :=
  World h (requests w).

Definition M (A : Type) : Type := world -> res A * world.

Definition ret {A} (a : A) : M A := fun w => (Ret a, w).
Definition raise {A} (e : exn) : M A := fun w => (Raise e, w).
Definition call {A} (o : outcome A) : M A := fun w => (of_outcome o, w).
Definition out_of_fuel {A} : M A := fun w => (OutOfFuel, w).

Definition bind {A B} (c : M A) (k : A -> M B) : M B :=
  fun w =>
    match c w with
    | (Ret a, w') => k a w'
    | (Raise e, w') => (Raise e, w')
    | (OutOfFuel, w') => (OutOfFuel, w')
    end.

(** [try: c  except Exception: handler]. *)
Definition try_except {A} (c : M A) (handler : exn -> M A) : M A :=
  fun w =>
    match c w with
    | (Raise e, w') => handler e w'
    | r => r
    end.

Declare Scope py_scope.
Delimit Scope py_scope with py.
Notation "x <- c ;; k" := (bind c (fun x => k))
  (at level 100, c at next level, right associativity) : py_scope.
Local Open Scope py_scope.

(** [try: c  except E: handler] for one exception class [E]. *)
Definition try_except_only {A} (E : exn) (c : M A) (handler : M A) : M A :=
  try_except c (fun e => if decide (e = E) then handler else raise e).

(** Reading a dict object through its reference.  A Python reference is never
    dangling; the model reports a dangling location as [SystemError]. *)
Definition deref (l : loc) : M dict :=
  fun w => call (of_option SystemError (heap w !! l)) w.

(** A new dict object: [{...}]. *)
Definition alloc (d : dict) : M loc :=
  fun w => let l := fresh (dom (heap w)) in (Ret l, set_heap (<[l := d]> (heap w)) w).

(** [d[key]] *)
Definition dict_getitem (d : dict) (key : string) : outcome pyobj :=
  of_option KeyError (d !! key).

(** [obj[key]] for the object behind [l]. *)
Definition getitem (l : loc) (key : string) : M pyobj :=
  d <- deref l ;; call (dict_getitem d key).

(** [obj[key] = value], in place. *)
Definition setitem (l : loc) (key : string) (value : pyobj) : M unit :=
  d <- deref l ;;
  fun w => (Ret tt, set_heap (<[l := <[key := value]> d]> (heap w)) w).

(** ** Built-ins on strings and JSON values *)

(** [s.split(sep)] for a one-character separator. *)
Fixpoint split_on (sep : ascii) (s : string) : list string :=
  match s with
  | EmptyString => [EmptyString]
  | String c s' =>
      if Ascii.eqb c sep then EmptyString :: split_on sep s'
      else match split_on sep s' with
           | p :: ps => String c p :: ps
           | [] => [String c EmptyString]
           end
  end.

(** [sub in s] for strings. *)
Fixpoint str_contains (sub s : string) : bool :=
  String.prefix sub s ||
  match s with
  | EmptyString => false
  | String _ s' => str_contains sub s'
  end.

(** The characters of a string, as one-character strings. *)
Fixpoint str_chars (s : string) : list pyobj :=
  match s with
  | EmptyString => []
  | String c s' => PStr (String c EmptyString) :: str_chars s'
  end.

(** [key in obj] for a string [key]. *)
Definition py_contains (key : string) (obj : pyobj) : outcome bool :=
  match obj with
  | PDict d => Returns (bool_decide (is_Some (d !! key)))
  | PList l => Returns (bool_decide (PStr key ∈ l))
  | PStr s => Returns (str_contains key s)
  | _ => Raises TypeError
  end.

(** [obj[key]] for a string [key]: only a dict can be indexed by a string. *)
Definition py_getitem (obj : pyobj) (key : string) : outcome pyobj :=
  match obj with
  | PDict d => dict_getitem d key
  | _ => Raises TypeError
  end.

(** [obj.split(',')] *)
Definition py_split (obj : pyobj) : outcome (list string) :=
  match obj with
  | PStr s => Returns (split_on "," s)
  | _ => Raises AttributeError
  end.

(** [for x in obj]: the elements the loop visits. *)
Definition py_iter (obj : pyobj) : outcome (list pyobj) :=
  match obj with
  | PList l => Returns l
  | PDict d => Returns (PStr <$> (map_to_list d).*1)
  | PStr s => Returns (str_chars s)
  | _ => Raises TypeError
  end.

(** [x is None] *)
Definition is_None (x : pyobj) : bool :=
  match x with PNone => true | _ => false end.

(** ** HTTP *)

Record Response := mkResponse { status_code : Z; json : outcome pyobj }.

(** The dict [{"city": city_name, "data": cleaned_museum_data}] that
    [fetch_museum_data] builds; it is always non-empty and has the key
    ["data"]. *)
Record museums_dict := mkMuseumsDict { md_city : string; md_data : list loc }.

(** What the function of a handler returns: the body and the HTTP status (200
    when the function returns the body alone).  The bodies are
    [{'error': error}], [{'trip_plan': trip_plan}] and the list [museums]. *)
Inductive body :=
| ErrorBody (error : string)
| TripPlanBody (trip_plan : list loc)
| MuseumsBody (museums : list loc).

Definition reply : Type := body * Z.

(** ** Response marshalling

    [api.marshal_with(fields)] of flask-restx replaces the function [post] by
    a wrapper that calls it and, for a returned pair [(data, code)], answers
    [(marshal(data, fields), code)]; a value returned alone is marshalled the
    same way and served with status 200.  [marshal] builds the response from
    the keys of [fields] alone: a list is marshalled element by element, any
    other object becomes a dict with one entry per field of the model.  The
    model is written for requests without an [X-Fields] header (no mask). *)

(** [fields.String] and [fields.Float]. *)
Inductive raw_field := FString | FFloat.

(** A field of an output model: a [fields.String] or [fields.Float], or a
    [fields.List(fields.Nested(nested))] over a model of such fields. *)
Inductive field :=
| Raw (f : raw_field)
| ListNested (nested : list (string * raw_field)).

Definition model := list (string * field).

Definition museum_output : model :=
  [ ("name", Raw FString); ("latitude", Raw FFloat); ("longitude", Raw FFloat);
    ("city", Raw FString); ("imageUrl", Raw FString) ].

Definition museum_with_distance_output : list (string * raw_field) :=
  [ ("name", FString); ("latitude", FFloat); ("longitude", FFloat);
    ("city", FString); ("imageUrl", FString); ("distance", FFloat) ].

Definition trip_output : model :=
  [ ("trip_plan", ListNested museum_with_distance_output) ].

Definition obind {A B} (o : outcome A) (k : A -> outcome B) : outcome B :=
  match o with Returns a => k a | Raises e => Raises e end.

(** [[f(x) for x in l]], stopping at the first element on which [f] raises. *)
Definition omap {A B} (f : A -> outcome B) : list A -> outcome (list B) :=
  fix go l :=
    match l with
    | [] => Returns []
    | x :: l' => obind (f x) (fun y => obind (go l') (fun ys => Returns (y :: ys)))
    end.

(** [get_value(key, obj)] for a key of the output models: the value under
    [key] when [obj] is a dict that has the key, and [None] otherwise (the key
    is absent, or [obj] is not a dict and has no such attribute).  A value
    that is [None] itself reads like an absent one. *)
Definition get_value (key : string) (obj : pyobj) : pyobj :=
  match obj with
  | PDict d => default PNone (d !! key)
  | _ => PNone
  end.

(** [Raw.output(key, obj)] for a [String] or [Float] field: [None] when there
    is no value, the formatted value otherwise; [format] stands for [str()]
    and [float()] and may raise. *)
Definition output_raw (format : raw_field -> pyobj -> outcome pyobj)
    (f : raw_field) (key : string) (obj : pyobj) : outcome pyobj :=
  match get_value key obj with
  | PNone => Returns PNone
  | value => format f value
  end.

(** [dict((k, field.output(k, data)) for k, field in fields.items())] *)
Fixpoint marshal_dict {F} (output : F -> string -> pyobj -> outcome pyobj)
    (fields : list (string * F)) (data : pyobj) : outcome dict :=
  match fields with
  | [] => Returns ∅
  | (key, f) :: rest =>
      obind (output f key data) (fun value =>
      obind (marshal_dict output rest data) (fun out =>
      Returns (<[key := value]> out)))
  end.

(** [marshal(data, fields)] *)
Fixpoint marshal {F} (output : F -> string -> pyobj -> outcome pyobj)
    (fields : list (string * F)) (data : pyobj) : outcome pyobj :=
  match data with
  | PList l => obind (omap (marshal output fields) l) (fun out => Returns (PList out))
  | _ => obind (marshal_dict output fields data) (fun out => Returns (PDict out))
  end.

(** [List.output(key, obj)] for [fields.List(fields.Nested(nested))]: a list
    is marshalled element by element against [nested], no value gives [None],
    and any other value is marshalled into a list of one element. *)
Definition output_list (format : raw_field -> pyobj -> outcome pyobj)
    (nested : list (string * raw_field)) (key : string) (obj : pyobj) : outcome pyobj :=
  match get_value key obj with
  | PList value =>
      obind (omap (marshal (output_raw format) nested) value)
            (fun out => Returns (PList out))
  | PNone => Returns PNone
  | value =>
      obind (marshal (output_raw format) nested value) (fun out => Returns (PList [out]))
  end.

Definition output (format : raw_field -> pyobj -> outcome pyobj)
    (f : field) (key : string) (obj : pyobj) : outcome pyobj :=
  match f with
  | Raw r => output_raw format r key obj
  | ListNested nested => output_list format nested key obj
  end.

(** ** Built-ins on lists of objects *)

(** [min(l, key=key)]: the key of each element is computed once, in order, and
    an element replaces the best one only when its key is strictly smaller. *)
Fixpoint min_from {A} (key : A -> M float) (best : A) (best_key : float)
    (rest : list A) : M A :=
  match rest with
  | [] => ret best
  | item :: rest' =>
      val <- key item ;;
      if (val <? best_key)%float then min_from key item val rest'
      else min_from key best best_key rest'
  end.

Definition py_min {A} (key : A -> M float) (l : list A) : M A :=
  match l with
  | [] => raise ValueError
  | first :: rest => k <- key first ;; min_from key first k rest
  end.

(** [item is x or item == x] for two dict objects. *)
Definition obj_eq (h : gmap loc dict) (item x : loc) : bool :=
  bool_decide (item = x) || bool_decide (h !! item = h !! x).

(** [l.remove(x)]: drops the first element that is or equals [x]. *)
Fixpoint remove_first (eq : loc -> bool) (l : list loc) : option (list loc) :=
  match l with
  | [] => None
  | item :: l' =>
      if eq item then Some l'
      else match remove_first eq l' with
           | Some r => Some (item :: r)
           | None => None
           end
  end.

Definition list_remove (x : loc) (l : list loc) : M (list loc) :=
  fun w => call (of_option ValueError (remove_first (fun item => obj_eq (heap w) item x) l)) w.

(** [obj.lower()] *)
Definition py_lower (str_lower : string -> string) (obj : pyobj) : outcome string :=
  match obj with
  | PStr s => Returns (str_lower s)
  | _ => Raises AttributeError
  end.

(** [{key: value for key, value in museum.items() if key != 'id'}] *)
Definition strip_id (museum : dict) : dict :=
  filter (fun kv => kv.1 ≠ "id") museum.

(** ** A concrete environment, for running the model on examples *)

Module Fixture.

Definition lower_ascii (c : ascii) : ascii :=
  let n := nat_of_ascii c in
  if (65 <=? n)%nat && (n <=? 90)%nat then ascii_of_nat (n + 32) else c.

Fixpoint str_lower (s : string) : string :=
  match s with
  | EmptyString => EmptyString
  | String c s' => String (lower_ascii c) (str_lower s')
  end.

Fixpoint digits (acc : Z) (s : string) : option Z :=
  match s with
  | EmptyString => Some acc
  | String c s' =>
      let n := Z.of_nat (nat_of_ascii c) in
      if (48 <=? n)%Z && (n <=? 57)%Z then digits (10 * acc + (n - 48)) s' else None
  end.

(** Decimal integers with an optional minus sign. *)
Definition int_of_str (s : string) : option Z :=
  match s with
  | EmptyString => None
  | String "-" EmptyString => None
  | String "-" s' => Z.opp <$> digits 0 s'
  | _ => digits 0 s
  end.

(** A few decimal literals. *)
Definition float_of_str (s : string) : option float :=
  if String.eqb s "30.0" then Some 30%float
  else if String.eqb s "31.0" then Some 31%float
  else if String.eqb s "29.5" then Some 29.5%float
  else None.

(** A stand-in for the geodesic distance: the taxicab distance between two
    float coordinates, refusing anything else. *)
Definition geodesic (a b : pyobj * pyobj) : outcome float :=
  match a, b with
  | (PFloat x1, PFloat y1), (PFloat x2, PFloat y2) =>
      if is_nan x1 || is_nan y1 || is_nan x2 || is_nan y2 then Raises ValueError
      else Returns (abs (x1 - x2) + abs (y1 - y2))%float
  | _, _ => Raises ValueError
  end.

(** A stand-in for the conversions of the output fields: text stays text and
    a float stays a float; anything else is refused. *)
Definition field_format (f : raw_field) (value : pyobj) : outcome pyobj :=
  match f, value with
  | FString, PStr s => Returns (PStr s)
  | FFloat, PFloat x => Returns (PFloat x)
  | _, _ => Raises ValueError
  end.

Definition museum (id : Z) (name : string) (lat lon : float) : pyobj :=
  PDict (<["id" := PInt id]> (<["name" := PStr name]>
        (<["latitude" := PFloat lat]> (<["longitude" := PFloat lon]> ∅)))).

Definition museums_url : string := "https://historyproject.somee.com/api/Museums/city/".

(** Cairo has two museums, Giza one, any other city answers 404; the host
    of city "Offline" cannot be reached.  The geolocation service answers
    with a well-formed location. *)
Definition requests_get (log : list string) (url : string) : outcome Response :=
  if String.eqb url (String.append museums_url "Cairo") then
    Returns (mkResponse 200 (Returns (PList [museum 1 "Egyptian Museum" 30 31;
                                             museum 2 "Coptic Museum" 29.5 31])))
  else if String.eqb url (String.append museums_url "Giza") then
    Returns (mkResponse 200 (Returns (PList [museum 3 "Grand Egyptian Museum" 29.5 30])))
  else if String.eqb url (String.append museums_url "Offline") then Raises RequestException
  else if String.eqb url "https://ipinfo.io" then
    Returns (mkResponse 200
      (Returns (PDict (<["ip" := PStr "10.0.0.1"]> (<["loc" := PStr "30.0,31.0"]> ∅)))))
  else Returns (mkResponse 404 (Raises JSONDecodeError)).

(** The same upstream, with a geolocation service that answers without a
    location field. *)
Definition requests_get_noloc (log : list string) (url : string) : outcome Response :=
  if String.eqb url "https://ipinfo.io" then
    Returns (mkResponse 200 (Returns (PDict (<["ip" := PStr "10.0.0.1"]> ∅))))
  else requests_get log url.

Definition w0 : world := World ∅ [].

(** A record as the aggregator leaves it. *)
Definition record (name city : string) (lat lon : float) : dict :=
  <["name" := PStr name]> (<["latitude" := PFloat lat]>
    (<["longitude" := PFloat lon]> (<["city" := PStr city]> ∅))).

(** Three records at locations 0, 1 and 2. *)
Definition w3 : world :=
  World (<[0%nat := record "Egyptian Museum" "Cairo" 30 31]>
        (<[1%nat := record "Coptic Museum" "Cairo" 29.5 31]>
        (<[2%nat := record "Grand Egyptian Museum" "Giza" 29.5 30]> ∅))) [].

Definition start : Point := mkPoint (PFloat 29.5) (PFloat 31).

(** The three records again, the second one without its latitude. *)
Definition w_bad : world :=
  World (<[1%nat := delete "latitude" (record "Coptic Museum" "Cairo" 29.5 31)]>
           (heap w3)) [].

(** The three records again, the second one with a latitude that is text. *)
Definition w_text : world :=
  World (<[1%nat := <["latitude" := PStr "north"]>
                      (record "Coptic Museum" "Cairo" 29.5 31)]> (heap w3)) [].

(** An upstream with odd answers: an error object for "Object", a record
    without a name for "Nameless", and the usual answers otherwise. *)
Definition requests_get_odd (log : list string) (url : string) : outcome Response :=
  if String.eqb url (String.append museums_url "Object") then
    Returns (mkResponse 200 (Returns (PDict (<["error" := PStr "unknown city"]> ∅))))
  else if String.eqb url (String.append museums_url "Nameless") then
    Returns (mkResponse 200 (Returns (PList
      [PDict (<["latitude" := PFloat 30]> (<["longitude" := PFloat 31]> ∅))])))
  else requests_get log url.

End Fixture.

(** ** The program *)

Section TripPlanner.

(** [requests.get(url)], given the requests made so far: a response or an
    exception (connection refused, timeout, ...). *)
Variable requests_get : list string -> string -> outcome Response.
(** [geodesic((lat1, lon1), (lat2, lon2)).kilometers] of geopy; it raises on
    coordinates it rejects. *)
Variable geodesic : pyobj * pyobj -> pyobj * pyobj -> outcome float.
(** [float(s)] and [int(s)] on strings; [None] stands for [ValueError]. *)
Variable float_of_str : string -> option float.
Variable int_of_str : string -> option Z.
(** [s.lower()] *)
Variable str_lower : string -> string.
(** [String.format(value)] and [Float.format(value)] of flask-restx, that is
    [str(value)] and [float(value)]; the latter raises on a value that is not
    a number. *)
Variable field_format : raw_field -> pyobj -> outcome pyobj.

Definition http_get (url : string) : M Response :=
  fun w => (of_outcome (requests_get (requests w) url),
            World (heap w) (requests w ++ [url])).

(** The body of the [try] block of [get_current_location]. *)
Definition get_current_location_try : M (pyobj * pyobj) :=
  response <- http_get "https://ipinfo.io" ;;
  data <- call (json response) ;;
  has_loc <- call (py_contains "loc" data) ;;
  if has_loc : bool then
    loc_field <- call (py_getitem data "loc") ;;
    parts <- call (py_split loc_field) ;;
    match parts with
    | [latitude; longitude] =>
        lat <- call (of_option ValueError (float_of_str latitude)) ;;
        lon <- call (of_option ValueError (float_of_str longitude)) ;;
        ret (PFloat lat, PFloat lon)
    | _ => raise ValueError
    end
  else raise ValueError.

Definition get_current_location : M (pyobj * pyobj) :=
  try_except get_current_location_try (fun _ => ret (PNone, PNone)).

(** The list comprehension of [fetch_museum_data]: one new dict per element,
    which must be a dict itself ([museum.items()]). *)
Fixpoint clean_museum_data (museum_data : list pyobj) : M (list loc) :=
  match museum_data with
  | [] => ret []
  | museum :: rest =>
      match museum with
      | PDict d =>
          l <- alloc (strip_id d) ;;
          ls <- clean_museum_data rest ;;
          ret (l :: ls)
      | _ => raise AttributeError
      end
  end.

Definition museum_url (city_name : string) : string :=
  String.append "https://historyproject.somee.com/api/Museums/city/" city_name.

Definition fetch_museum_data (city_name : string) : M (option museums_dict) :=
  let url := museum_url city_name in
  response <- http_get url ;;
  if (status_code response =? 200)%Z then
    museum_data <- call (json response) ;;
    items <- call (py_iter museum_data) ;;
    cleaned_museum_data <- clean_museum_data items ;;
    ret (Some (mkMuseumsDict city_name cleaned_museum_data))
  else ret None.

Definition calculate_distance (point1 point2 : Point) : outcome float :=
  geodesic (latitude point1, longitude point1) (latitude point2, longitude point2).

(** [for museum in museums_dict['data']: museum['city'] = city] *)
Fixpoint set_city (data : list loc) (city : string) : M unit :=
  match data with
  | [] => ret tt
  | museum :: rest => _ <- setitem museum "city" (PStr city) ;; set_city rest city
  end.

(** The loop of [fetch_museums_for_cities], with its accumulator.  The test
    [museums_dict and 'data' in museums_dict] holds exactly when
    [fetch_museum_data] returned its dict rather than [None]. *)
Fixpoint fetch_museums_loop (cities : list string) (all_museums : list loc) : M (list loc) :=
  match cities with
  | [] => ret all_museums
  | city :: rest =>
      museums_dict <- fetch_museum_data city ;;
      match museums_dict with
      | Some md =>
          _ <- set_city (md_data md) city ;;
          fetch_museums_loop rest (all_museums ++ md_data md)
      | None => fetch_museums_loop rest all_museums
      end
  end.

Definition fetch_museums_for_cities (cities : list string) : M (list loc) :=
  fetch_museums_loop cities [].

Definition heuristic (a b : Point) : outcome float :=
  geodesic (latitude a, longitude a) (latitude b, longitude b).

(** [Point(museum['latitude'], museum['longitude'])] *)
Definition point_of (museum : loc) : M Point :=
  lat <- getitem museum "latitude" ;;
  lon <- getitem museum "longitude" ;;
  ret (mkPoint lat lon).

(** The key of [min] in [a_star_search]. *)
Definition distance_from (current_location : Point) (museum : loc) : M float :=
  p <- point_of museum ;; call (heuristic current_location p).

(** One iteration of the [while museums] loop.  It returns the new current
    location, the working list and the trip plan. *)
Definition a_star_step (current_location : Point) (museums trip_plan : list loc)
    : M (Point * list loc * list loc) :=
  closest_museum <- py_min (distance_from current_location) museums ;;
  d <- distance_from current_location closest_museum ;;
  _ <- setitem closest_museum "distance" (PFloat d) ;;
  let trip_plan := trip_plan ++ [closest_museum] in
  current_location <- point_of closest_museum ;;
  museums <- list_remove closest_museum museums ;;
  ret (current_location, museums, trip_plan).

Fixpoint a_star_loop (fuel : nat) (current_location : Point)
    (museums trip_plan : list loc) : M (list loc * list loc) :=
  match museums with
  | [] => ret (trip_plan, museums)
  | _ :: _ =>
      match fuel with
      | O => out_of_fuel
      | S fuel' =>
          st <- a_star_step current_location museums trip_plan ;;
          let '(current_location, museums, trip_plan) := st in
          a_star_loop fuel' current_location museums trip_plan
      end
  end.

(** [a_star_search(start, museums)]: the trip plan, and the caller's list
    [museums] as the loop leaves it.  Each iteration removes one element, so
    [length museums] iterations are enough (see [a_star_search_terminates]). *)
Definition a_star_search (start : Point) (museums : list loc) : M (list loc * list loc) :=
  a_star_loop (length museums) start museums [].

(** [next((museum for museum in museums
           if start_location_input.lower() == museum['name'].lower()), None)] *)
Fixpoint next_by_name (start_location_input : string) (museums : list loc) : M (option loc) :=
  match museums with
  | [] => ret None
  | museum :: rest =>
      name <- getitem museum "name" ;;
      lowered <- call (py_lower str_lower name) ;;
      if String.eqb (str_lower start_location_input) lowered then ret (Some museum)
      else next_by_name start_location_input rest
  end.

(** The truth value of a dict object: non-empty. *)
Definition truthy (l : loc) : M bool :=
  d <- deref l ;; ret (negb (bool_decide (d = ∅))).

Definition no_museums_error : reply :=
  (ErrorBody "No valid museums found for the provided cities. Please enter valid city names.", 400%Z).

(** The [try] block of [PlanTrip.post] with its [except ValueError] clause:
    either an early return or the start location. *)
Definition start_from_number (start_location_input : string) (museums : list loc)
    : M (reply + option Point) :=
  try_except_only ValueError
    (v <- call (of_option ValueError (int_of_str start_location_input)) ;;
     let start_location_index := (v - 1)%Z in
     if (0 <=? start_location_index)%Z && (start_location_index <? Z.of_nat (length museums))%Z then
       chosen_museum <- call (of_option IndexError (museums !! Z.to_nat start_location_index)) ;;
       p <- point_of chosen_museum ;;
       ret (inr (Some p))
     else
       ret (inl (ErrorBody "Invalid start location number. Please enter a valid number or museum name.", 400%Z)))
    (ret (inl (ErrorBody "Invalid start location input. Please enter a valid number or museum name.", 400%Z))).

(** Lines 139-160 of [PlanTrip.post]: either an early return or the value of
    [start_location]. *)
Definition resolve_start (start_location_input : string) (museums : list loc)
    : M (reply + option Point) :=
  if String.eqb (str_lower start_location_input) "current location" then
    coords <- get_current_location ;;
    let '(latitude, longitude) := coords in
    if is_None latitude || is_None longitude then
      ret (inl (ErrorBody "Unable to fetch current location.", 400%Z))
    else ret (inr (Some (mkPoint latitude longitude)))
  else
    chosen_museum <- next_by_name start_location_input museums ;;
    match chosen_museum with
    | Some chosen =>
        t <- truthy chosen ;;
        if t : bool then p <- point_of chosen ;; ret (inr (Some p))
        else start_from_number start_location_input museums
    | None => start_from_number start_location_input museums
    end.

(** Lines 162-170 of [PlanTrip.post].  A [Point] is a non-empty tuple, so
    [not start_location] holds only for [None]. *)
Definition run_trip (start_location : option Point) (museums : list loc) : M reply :=
  match start_location with
  | None => ret (ErrorBody "Could not determine start location. Please try again.", 400%Z)
  | Some p =>
      let start_museum := mkPoint (latitude p) (longitude p) in
      r <- a_star_search start_museum museums ;;
      ret (TripPlanBody r.1, 200%Z)
  end.

(** The function [post] of [PlanTrip] as it is written (lines 130-170), on
    the request body [{cities, start_location}]; the handler that serves the
    requests is the decorated [PlanTrip_post] below. *)
Definition PlanTrip_post_body (cities : list string) (start_location_input : string)
    : M reply :=
  museums <- fetch_museums_for_cities cities ;;
  match museums with
  | [] => ret no_museums_error
  | _ :: _ =>
      r <- resolve_start start_location_input museums ;;
      match r with
      | inl early => ret early
      | inr start_location => run_trip start_location museums
      end
  end.

(** The function [post] of [ShowMuseums] as it is written (lines 177-185), on
    the request body [{cities}]. *)
Definition ShowMuseums_post_body (cities : list string) : M reply :=
  museums <- fetch_museums_for_cities cities ;;
  match museums with
  | [] => ret no_museums_error
  | _ :: _ => ret (MuseumsBody museums, 200%Z)
  end.

(** The records behind a list of references, as [marshal] reads them. *)
Fixpoint objects (ls : list loc) : M (list pyobj) :=
  match ls with
  | [] => ret []
  | l :: rest =>
      d <- deref l ;;
      ds <- objects rest ;;
      ret (PDict d :: ds)
  end.

(** The Python object that a function returned as its body. *)
Definition body_object (data : body) : M pyobj :=
  match data with
  | ErrorBody error => ret (PDict (<["error" := PStr error]> ∅))
  | TripPlanBody trip_plan =>
      records <- objects trip_plan ;;
      ret (PDict (<["trip_plan" := PList records]> ∅))
  | MuseumsBody museums =>
      records <- objects museums ;;
      ret (PList records)
  end.

(** The wrapper that [api.marshal_with(fields)] puts around [post]: the body
    is marshalled against [fields], the status is kept, and an exception of
    [post] passes through. *)
Definition marshal_with (fields : model) (post : M reply) : M (pyobj * Z) :=
  resp <- post ;;
  let '(data, code) := resp in
  obj <- body_object data ;;
  out <- call (marshal (output field_format) fields obj) ;;
  ret (out, code).

(** [PlanTrip.post]: [@api.marshal_with(trip_output)] around the function. *)
Definition PlanTrip_post (cities : list string) (start_location_input : string)
    : M (pyobj * Z) :=
  marshal_with trip_output (PlanTrip_post_body cities start_location_input).

(** [ShowMuseums.post]: [@api.marshal_with(museum_output, as_list=True)]
    around the function; [as_list] only changes the generated documentation. *)
Definition ShowMuseums_post (cities : list string) : M (pyobj * Z) :=
  marshal_with museum_output (ShowMuseums_post_body cities).

End TripPlanner.

(** ** Vocabulary of the statements *)

(** The coordinate a record carries, when it has both fields. *)
Definition coords (d : dict) : option Point :=
  match d !! "latitude", d !! "longitude" with
  | Some lat, Some lon => Some (mkPoint lat lon)
  | _, _ => None
  end.

(** The distance in kilometres from [p] to the record behind [l]: defined when
    the record has a coordinate and [geodesic] returns a number (not a NaN). *)
Definition km (geodesic : pyobj * pyobj -> pyobj * pyobj -> outcome float)
    (h : gmap loc dict) (p : Point) (l : loc) : option float :=
  match h !! l with
  | Some d =>
      match coords d with
      | Some q =>
          match heuristic geodesic p q with
          | Returns x => if is_nan x then None else Some x
          | Raises _ => None
          end
      | None => None
      end
  | None => None
  end.

(** The distance from [p] to every record of the list is defined. *)
Definition in_reach (geodesic : pyobj * pyobj -> pyobj * pyobj -> outcome float)
    (h : gmap loc dict) (p : Point) (museums : list loc) : bool :=
  forallb (fun l => bool_decide (is_Some (km geodesic h p l))) museums.

(** Every distance the greedy loop may ask for is defined: from the start to
    each record, and from each record to each record. *)
Definition route_ok (geodesic : pyobj * pyobj -> pyobj * pyobj -> outcome float)
    (h : gmap loc dict) (start : Point) (museums : list loc) : bool :=
  in_reach geodesic h start museums &&
  forallb (fun l =>
    match h !! l with
    | Some d =>
        match coords d with
        | Some p => in_reach geodesic h p museums
        | None => false
        end
    | None => false
    end) museums.

(** The heap [h'] is the heap [h] where some dict objects had their field
    [distance] set to a float, and nothing else happened. *)
Definition same_but_distance (h h' : gmap loc dict) : Prop :=
  forall l,
    h' !! l = h !! l \/
    exists r d, h !! l = Some r /\ h' !! l = Some (<["distance" := PFloat d]> r).

(** Whether the lowered input equals the lowered name of the record behind
    [l]; [None] when the record has no name that is a string. *)
Definition name_matches (str_lower : string -> string) (h : gmap loc dict)
    (start_location_input : string) (l : loc) : option bool :=
  match h !! l with
  | Some d =>
      match d !! "name" with
      | Some (PStr name) =>
          Some (String.eqb (str_lower start_location_input) (str_lower name))
      | _ => None
      end
  | None => None
  end.

(** [x] sits at index [i] of [l], no element has a strictly smaller key, and
    every element before index [i] has a strictly larger one. *)
Definition first_min {A} (k : A -> float) (l : list A) (i : nat) (x : A) : Prop :=
  l !! i = Some x /\
  (forall y, y ∈ l -> (k y <? k x)%float = false) /\
  (forall j y, (j < i)%nat -> l !! j = Some y -> (k x <? k y)%float = true).

(** A binary64 value that is a number. *)
Definition not_nan (x : spec_float) : bool :=
  match x with S754_nan => false | _ => true end.

(** On the list [l], the key function [key] reads the world without changing
    it, returns the number [k a] for the element [a], and that number is not
    a NaN. *)
Definition pure_key {A} (key : A -> M float) (k : A -> float) (w : world)
    (l : list A) : Prop :=
  forall a, a ∈ l -> key a w = (Ret (k a), w) /\ is_nan (k a) = false.

Section Vocabulary.
Variable requests_get : list string -> string -> outcome Response.
Variable geodesic : pyobj * pyobj -> pyobj * pyobj -> outcome float.
Variable float_of_str : string -> option float.

(** The invariant of the loop: every distance still to be asked for is
    defined. *)
Definition reach_inv (h : gmap loc dict) (cur : Point) (museums : list loc) : Prop :=
  in_reach geodesic h cur museums = true /\
  forall l r p, l ∈ museums -> h !! l = Some r -> coords r = Some p ->
    in_reach geodesic h p museums = true.

(** The coordinate that the answer of the provider yields, if any: a JSON
    value that contains ["loc"] and maps it to a string of two comma-separated
    parts that [float()] accepts. *)
Definition parse_location (answer : outcome Response) : option (float * float) :=
  match answer with
  | Returns resp =>
      match json resp with
      | Returns data =>
          match py_contains "loc" data, py_getitem data "loc" with
          | Returns true, Returns v =>
              match py_split v with
              | Returns [a; b] =>
                  match float_of_str a, float_of_str b with
                  | Some x, Some y => Some (x, y)
                  | _, _ => None
                  end
              | _ => None
              end
          | _, _ => None
          end
      | Raises _ => None
      end
  | Raises _ => None
  end.

Definition after_geolocation (w : world) : world :=
  World (heap w) (requests w ++ ["https://ipinfo.io"]).

(** The elements of a JSON array as dicts, when each of them is one. *)
Fixpoint dicts_of (items : list pyobj) : option (list dict) :=
  match items with
  | [] => Some []
  | PDict d :: rest =>
      match dicts_of rest with Some ds => Some (d :: ds) | None => None end
  | _ :: _ => None
  end.

(** What the museum data client makes of an answer of the upstream service:
    [Some (Some ds)] for the records of a 200 answer, [Some None] for the
    absence signal of any other status, and [None] when the client raises
    (no answer, a body that is not JSON, or not a sequence of objects). *)
Definition client_view (answer : outcome Response) : option (option (list dict)) :=
  match answer with
  | Returns resp =>
      if (status_code resp =? 200)%Z then
        match json resp with
        | Returns data =>
            match py_iter data with
            | Returns items =>
                match dicts_of items with
                | Some ds => Some (Some ds)
                | None => None
                end
            | Raises _ => None
            end
        | Raises _ => None
        end
      else Some None
  | Raises _ => None
  end.

(** No call of the client raises, for the cities in order and the requests
    logged so far. *)
Fixpoint upstream_ok (log : list string) (cities : list string) : bool :=
  match cities with
  | [] => true
  | city :: rest =>
      match client_view (requests_get log (museum_url city)) with
      | Some _ => upstream_ok (log ++ [museum_url city]) rest
      | None => false
      end
  end.

(** The aggregation as the specification words it: for each city in input
    order, the records of the client (nothing on absence), each with its
    [city] field set to the queried city, concatenated in city-then-upstream
    order. *)
Fixpoint aggregate_spec (log : list string) (cities : list string) : list dict :=
  match cities with
  | [] => []
  | city :: rest =>
      match client_view (requests_get log (museum_url city)) with
      | Some (Some ds) => (fun d => <["city" := PStr city]> (strip_id d)) <$> ds
      | _ => []
      end ++ aggregate_spec (log ++ [museum_url city]) rest
  end.

End Vocabulary.

(** *** Vocabulary of the further properties *)

(** The coordinate of the record behind [l]. *)
Definition coords_at (h : gmap loc dict) (l : loc) : option Point :=
  match h !! l with Some d => coords d | None => None end.

(** [trip] is a nearest-neighbour tour from [cur]: each stop is no farther
    from the previous one (from [cur], for the first stop) than any later
    stop is. *)
Fixpoint nearest_tour (geodesic : pyobj * pyobj -> pyobj * pyobj -> outcome float)
    (h : gmap loc dict) (cur : Point) (trip : list loc) : Prop :=
  match trip with
  | [] => True
  | l :: rest =>
      exists d p,
        km geodesic h cur l = Some d /\
        (forall l', l' ∈ rest ->
           exists d', km geodesic h cur l' = Some d' /\ (d <=? d')%float = true) /\
        coords_at h l = Some p /\
        nearest_tour geodesic h p rest
  end.

(** Each record of [trip] carries in its [distance] field the distance from
    the previous stop (from [cur], for the first stop). *)
Fixpoint legs_recorded (geodesic : pyobj * pyobj -> pyobj * pyobj -> outcome float)
    (h : gmap loc dict) (cur : Point) (trip : list loc) : Prop :=
  match trip with
  | [] => True
  | l :: rest =>
      exists d r p,
        km geodesic h cur l = Some d /\
        h !! l = Some r /\ r !! "distance" = Some (PFloat d) /\
        coords r = Some p /\
        legs_recorded geodesic h p rest
  end.

(** The character [c] occurs in [s]. *)
Fixpoint has_char (c : ascii) (s : string) : bool :=
  match s with
  | EmptyString => false
  | String c' s' => Ascii.eqb c' c || has_char c s'
  end.

(** The error messages that the function of [PlanTrip.post] can return. *)
Definition plan_trip_errors : list string :=
  [ "No valid museums found for the provided cities. Please enter valid city names.";
    "Unable to fetch current location.";
    "Invalid start location number. Please enter a valid number or museum name.";
    "Invalid start location input. Please enter a valid number or museum name." ].

(** The JSON body [{"trip_plan": null}]. *)
Definition null_plan : pyobj := PDict (<["trip_plan" := PNone]> ∅).

(** The JSON body of a museum record whose five fields are all [null]. *)
Definition null_museum : pyobj :=
  PDict (<["name" := PNone]> (<["latitude" := PNone]> (<["longitude" := PNone]>
        (<["city" := PNone]> (<["imageUrl" := PNone]> ∅))))).

(** The JSON body [{"trip_plan": items}]. *)
Definition plan_of (items : list pyobj) : pyobj :=
  PDict (<["trip_plan" := PList items]> ∅).

(** ** Floating-point order *)

Module FloatOrder.

Ltac cmp_cases :=
  repeat match goal with
  | |- context [Pos.compare_cont Eq ?a ?b] =>
      change (Pos.compare_cont Eq a b) with (Pos.compare a b) in *
  | H : context [Pos.compare_cont Eq ?a ?b] |- _ =>
      change (Pos.compare_cont Eq a b) with (Pos.compare a b) in *
  | |- context [Z.compare ?a ?b] => destruct (Z.compare_spec a b); subst
  | H : context [Z.compare ?a ?b] |- _ => destruct (Z.compare_spec a b); subst
  | |- context [Pos.compare ?a ?b] => destruct (Pos.compare_spec a b); subst
  | H : context [Pos.compare ?a ?b] |- _ => destruct (Pos.compare_spec a b); subst
  end.

Ltac by_compare :=
  unfold SFltb, SFleb; simpl; try congruence;
  cmp_cases; simpl; try congruence; try lia.

Lemma SFltb_irrefl x : SFltb x x = false.
Proof. destruct x as [[]|[]| |[] ? ?]; by_compare. Qed.

Lemma SFltb_trans x y z : SFltb x y = true -> SFltb y z = true -> SFltb x z = true.
Proof.
  destruct x as [[]|[]| |[] ? ?], y as [[]|[]| |[] ? ?], z as [[]|[]| |[] ? ?];
    by_compare.
Qed.

Lemma SFltb_lt_nlt x y z :
  not_nan z = true -> SFltb x y = true -> SFltb z y = false -> SFltb x z = true.
Proof.
  destruct x as [[]|[]| |[] ? ?], y as [[]|[]| |[] ? ?], z as [[]|[]| |[] ? ?];
    by_compare.
Qed.

Lemma SFleb_of_nlt x y :
  not_nan x = true -> not_nan y = true -> SFltb y x = false -> SFleb x y = true.
Proof. destruct x as [[]|[]| |[] ? ?], y as [[]|[]| |[] ? ?]; by_compare. Qed.

Lemma is_nan_not_nan x : is_nan x = false -> not_nan (Prim2SF x) = true.
Proof.
  unfold is_nan. rewrite FloatAxioms.eqb_spec. unfold SFeqb.
  destruct (Prim2SF x) as [[]|[]| |[] m e]; simpl; congruence.
Qed.

Lemma ltb_irrefl x : (x <? x)%float = false.
Proof. rewrite FloatAxioms.ltb_spec. apply SFltb_irrefl. Qed.

Lemma ltb_trans x y z :
  (x <? y)%float = true -> (y <? z)%float = true -> (x <? z)%float = true.
Proof. rewrite !FloatAxioms.ltb_spec. apply SFltb_trans. Qed.

Lemma ltb_lt_nlt x y z :
  is_nan z = false ->
  (x <? y)%float = true -> (z <? y)%float = false -> (x <? z)%float = true.
Proof. rewrite !FloatAxioms.ltb_spec. intros Hz. apply SFltb_lt_nlt. by apply is_nan_not_nan. Qed.

Lemma leb_of_nlt x y :
  is_nan x = false -> is_nan y = false ->
  (y <? x)%float = false -> (x <=? y)%float = true.
Proof.
  rewrite FloatAxioms.ltb_spec, FloatAxioms.leb_spec. intros Hx Hy.
  apply SFleb_of_nlt; by apply is_nan_not_nan.
Qed.

End FloatOrder.

(** ** The monad and the heap primitives *)

Section Monad.
Context {A B : Type}.

Lemma bind_Ret (c : M A) (k : A -> M B) w a w' :
  c w = (Ret a, w') -> bind c k w = k a w'.
Proof. unfold bind. by intros ->. Qed.

End Monad.

Lemma coords_insert_distance (d : dict) v :
  coords (<["distance" := v]> d) = coords d.
Proof. unfold coords. by rewrite !lookup_insert_ne. Qed.

Lemma getitem_eq l key w :
  getitem l key w =
  (match heap w !! l with
   | Some d => of_outcome (of_option KeyError (d !! key))
   | None => Raise SystemError
   end, w).
Proof.
  unfold getitem, bind, deref, call, dict_getitem.
  by destruct (heap w !! l).
Qed.

Lemma point_of_eq l w :
  point_of l w =
  (match heap w !! l with
   | Some d =>
       match d !! "latitude" with
       | Some lat =>
           match d !! "longitude" with
           | Some lon => Ret (mkPoint lat lon)
           | None => Raise KeyError
           end
       | None => Raise KeyError
       end
   | None => Raise SystemError
   end, w).
Proof.
  unfold point_of, bind. rewrite getitem_eq.
  destruct (heap w !! l) as [d|] eqn:Hd; simpl; [|done].
  destruct (d !! "latitude") as [lat|]; simpl; [|done].
  rewrite getitem_eq, Hd.
  by destruct (d !! "longitude").
Qed.

Lemma point_of_ok l d p w :
  heap w !! l = Some d -> coords d = Some p -> point_of l w = (Ret p, w).
Proof.
  rewrite point_of_eq. unfold coords. intros ->.
  destruct (d !! "latitude") as [lat|]; [|done].
  destruct (d !! "longitude") as [lon|]; [|done].
  by intros [= <-].
Qed.

Lemma point_of_world l w : (point_of l w).2 = w.
Proof. by rewrite point_of_eq. Qed.

Section Distance.
Variable geodesic : pyobj * pyobj -> pyobj * pyobj -> outcome float.

Lemma distance_from_ok cur l w x :
  km geodesic (heap w) cur l = Some x ->
  distance_from geodesic cur l w = (Ret x, w) /\ is_nan x = false.
Proof.
  unfold km, distance_from. intros H.
  destruct (heap w !! l) as [d|] eqn:Hd; [|done].
  destruct (coords d) as [q|] eqn:Hq; [|done].
  rewrite (bind_Ret _ _ _ _ _ (point_of_ok _ _ _ _ Hd Hq)). unfold call.
  destruct (heuristic geodesic cur q) as [y|e]; simpl; [|done].
  destruct (is_nan y) eqn:Hnan; [done|]. by inversion H; subst.
Qed.

Lemma distance_from_world cur l w : (distance_from geodesic cur l w).2 = w.
Proof.
  unfold distance_from, bind. pose proof (point_of_world l w) as H.
  destruct (point_of l w) as [[p| |] w1]; simpl in *; by subst.
Qed.

(** The two distance functions of the source forward their arguments to
    [geodesic] in the same way. *)
Lemma calculate_distance_heuristic a b :
  calculate_distance geodesic a b = heuristic geodesic a b.
Proof. reflexivity. Qed.

Lemma km_insert_distance h l r v p l' :
  h !! l = Some r ->
  km geodesic (<[l := <["distance" := v]> r]> h) p l' = km geodesic h p l'.
Proof.
  intros Hl. unfold km. destruct (decide (l = l')) as [->|Hne].
  - by rewrite lookup_insert_eq, Hl, coords_insert_distance.
  - by rewrite lookup_insert_ne.
Qed.

End Distance.

(** ** [min] and [list.remove] *)

Section Min.
Context {A : Type} (key : A -> M float) (k : A -> float) (w : world).

Lemma min_from_first_min rest : forall pre i best,
  pure_key key k w (pre ++ rest) ->
  first_min k pre i best ->
  exists i' x, min_from key best (k best) rest w = (Ret x, w) /\
               first_min k (pre ++ rest) i' x.
Proof.
  induction rest as [|item rest IH]; intros pre i best Hkey Hmin.
  - exists i, best. by rewrite app_nil_r.
  - simpl. assert (item ∈ pre ++ item :: rest) as Hin
      by (rewrite elem_of_app, elem_of_cons; auto).
    destruct (Hkey item Hin) as [Hk Hnan]. clear Hin.
    rewrite (bind_Ret _ _ _ _ _ Hk).
    replace (pre ++ item :: rest) with ((pre ++ [item]) ++ rest) in Hkey |- *
      by (by rewrite <- app_assoc).
    destruct Hmin as (Hi & Hle & Hlt).
    destruct (k item <? k best)%float eqn:Hcmp.
    + apply (IH (pre ++ [item]) (length pre) item Hkey).
      split; [|split].
      * by rewrite lookup_app_r, Nat.sub_diag by lia.
      * intros y [Hy | ->%list_elem_of_singleton]%elem_of_app.
        -- destruct (k y <? k item)%float eqn:Hy'; [|done].
           rewrite <- (Hle y Hy). symmetry. by eapply FloatOrder.ltb_trans.
        -- apply FloatOrder.ltb_irrefl.
      * intros j y Hj Hy. rewrite lookup_app_l in Hy by done.
        assert (y ∈ pre) as Hin by (by eapply list_elem_of_lookup_2).
        assert (y ∈ (pre ++ [item]) ++ rest) as Hin'
          by (rewrite !elem_of_app; auto).
        eapply FloatOrder.ltb_lt_nlt; [|exact Hcmp|by apply Hle].
        exact (proj2 (Hkey y Hin')).
    + apply (IH (pre ++ [item]) i best Hkey).
      split; [|split].
      * rewrite lookup_app_l; [done|]. by eapply lookup_lt_Some.
      * intros y [Hy | ->%list_elem_of_singleton]%elem_of_app; [by apply Hle|done].
      * intros j y Hj Hy. apply (Hlt j y Hj).
        rewrite lookup_app_l in Hy; [done|].
        apply lookup_lt_Some in Hi. lia.
Qed.

Lemma py_min_first_min l :
  l <> [] -> pure_key key k w l ->
  exists i x, py_min key l w = (Ret x, w) /\ first_min k l i x.
Proof.
  destruct l as [|first rest]; [done|]. intros _ Hkey. simpl.
  assert (first ∈ first :: rest) as Hin by (rewrite elem_of_cons; auto).
  destruct (Hkey first Hin) as [Hk _].
  rewrite (bind_Ret _ _ _ _ _ Hk).
  apply (min_from_first_min rest [first] 0 first Hkey).
  split; [done|]. split.
  - intros y ->%list_elem_of_singleton. apply FloatOrder.ltb_irrefl.
  - intros j y Hj. lia.
Qed.

End Min.

Section MinAny.
Context {A : Type} (key : A -> M float).
Hypothesis key_world : forall a w, (key a w).2 = w.
Hypothesis key_fuel : forall a w, (key a w).1 <> OutOfFuel.

Lemma min_from_any rest : forall best bk w,
  (min_from key best bk rest w).2 = w /\
  (min_from key best bk rest w).1 <> OutOfFuel /\
  forall x, (min_from key best bk rest w).1 = Ret x -> x = best \/ x ∈ rest.
Proof.
  induction rest as [|item rest IH]; intros best bk w; simpl.
  - repeat split; try done. intros x [= ->]. by left.
  - unfold bind. pose proof (key_world item w) as Hw.
    pose proof (key_fuel item w) as Hf.
    destruct (key item w) as [[val|e|] w1]; simpl in *; subst; try done.
    destruct (val <? bk)%float.
    + destruct (IH item val w) as (H1 & H2 & H3). repeat split; try done.
      intros x Hx. right. rewrite elem_of_cons. destruct (H3 x Hx); auto.
    + destruct (IH best bk w) as (H1 & H2 & H3). repeat split; try done.
      intros x Hx. destruct (H3 x Hx); [by left|right].
      rewrite elem_of_cons. auto.
Qed.

Lemma py_min_any l w :
  (py_min key l w).2 = w /\
  (py_min key l w).1 <> OutOfFuel /\
  forall x, (py_min key l w).1 = Ret x -> x ∈ l.
Proof.
  destruct l as [|first rest]; simpl; [done|].
  unfold bind. pose proof (key_world first w) as Hw.
  pose proof (key_fuel first w) as Hf.
  destruct (key first w) as [[val|e|] w1]; simpl in *; subst; try done.
  destruct (min_from_any rest first val w) as (H1 & H2 & H3).
  repeat split; try done.
  intros x Hx. rewrite elem_of_cons. destruct (H3 x Hx); auto.
Qed.

End MinAny.

Lemma remove_first_delete eq (l : list loc) : forall i x,
  l !! i = Some x -> eq x = true ->
  (forall j y, (j < i)%nat -> l !! j = Some y -> eq y = false) ->
  remove_first eq l = Some (delete i l).
Proof.
  induction l as [|a l IH]; intros i x Hi Hx Hbefore; [done|].
  destruct i as [|i]; simpl in *.
  - inversion Hi; subst. by rewrite Hx.
  - rewrite (Hbefore 0%nat a) by (done || lia).
    rewrite (IH i x Hi Hx); [done|].
    intros j y Hj Hy. apply (Hbefore (S j) y); [lia|done].
Qed.

Lemma remove_first_length eq (l r : list loc) :
  remove_first eq l = Some r -> length l = S (length r).
Proof.
  revert r. induction l as [|a l IH]; intros r; simpl; [done|].
  destruct (eq a); [by intros [= ->]|].
  destruct (remove_first eq l) as [r'|]; [|done].
  intros [= <-]. simpl. by rewrite (IH r').
Qed.

Lemma remove_first_Permutation eq (l r : list loc) :
  remove_first eq l = Some r -> exists x, eq x = true /\ Permutation l (x :: r).
Proof.
  revert r. induction l as [|a l IH]; intros r; simpl; [done|].
  destruct (eq a) eqn:Ha; [intros [= ->]; by exists a|].
  destruct (remove_first eq l) as [r'|]; [|done].
  intros [= <-]. destruct (IH r' eq_refl) as (x & Hx & Hp).
  exists x. split; [done|]. rewrite Hp. apply perm_swap.
Qed.

(** ** The trip sequencer *)

Section Sequencer.
Variable geodesic : pyobj * pyobj -> pyobj * pyobj -> outcome float.

Lemma in_reach_spec h p museums :
  in_reach geodesic h p museums = true <->
  forall l, l ∈ museums -> is_Some (km geodesic h p l).
Proof.
  unfold in_reach. rewrite forallb_forall. split.
  - intros H l Hl. apply list_elem_of_In in Hl.
    exact (proj1 (bool_decide_eq_true _) (H l Hl)).
  - intros H l Hl. apply bool_decide_eq_true, H. by apply list_elem_of_In.
Qed.

Lemma in_reach_insert_distance h l r v p museums :
  h !! l = Some r ->
  in_reach geodesic (<[l := <["distance" := v]> r]> h) p museums =
  in_reach geodesic h p museums.
Proof.
  intros Hl. unfold in_reach.
  induction museums as [|l' museums IH]; simpl; [done|].
  by rewrite (km_insert_distance _ _ _ _ _ _ _ Hl), IH.
Qed.

(** What one iteration does, when every distance from the current location is
    defined. *)
Lemma a_star_step_spec cur museums trip w :
  museums <> [] ->
  in_reach geodesic (heap w) cur museums = true ->
  exists i l r d p,
    museums !! i = Some l /\ heap w !! l = Some r /\ coords r = Some p /\
    km geodesic (heap w) cur l = Some d /\
    (forall l', l' ∈ museums ->
       exists d', km geodesic (heap w) cur l' = Some d' /\ (d <=? d')%float = true) /\
    (forall j l', (j < i)%nat -> museums !! j = Some l' ->
       exists d', km geodesic (heap w) cur l' = Some d' /\ (d <? d')%float = true) /\
    a_star_step geodesic cur museums trip w =
      (Ret (p, delete i museums, trip ++ [l]),
       set_heap (<[l := <["distance" := PFloat d]> r]> (heap w)) w).
Proof.
  intros Hne Hreach. rewrite in_reach_spec in Hreach.
  set (k := fun l => default 0%float (km geodesic (heap w) cur l)).
  assert (Hk : forall l, l ∈ museums -> km geodesic (heap w) cur l = Some (k l)).
  { intros l Hl. destruct (Hreach l Hl) as [x Hx]. unfold k. by rewrite Hx. }
  assert (Hkey : pure_key (distance_from geodesic cur) k w museums).
  { intros l Hl. by apply distance_from_ok, Hk. }
  destruct (py_min_first_min _ k w museums Hne Hkey) as (i & l & Hmin & Hi & Hle & Hlt).
  assert (Hl : l ∈ museums) by (by eapply list_elem_of_lookup_2).
  pose proof (Hk l Hl) as Hkm.
  assert (exists r p, heap w !! l = Some r /\ coords r = Some p) as (r & p & Hr & Hp).
  { unfold km in Hkm. destruct (heap w !! l) as [r|]; [|done].
    destruct (coords r) as [p|] eqn:Hp; [|done]. by exists r, p. }
  exists i, l, r, (k l), p. repeat split; try done.
  - intros l' Hl'. exists (k l'). split; [by apply Hk|].
    apply FloatOrder.leb_of_nlt; [apply Hkey, Hl | apply Hkey, Hl' | by apply Hle].
  - intros j l' Hj Hl'. exists (k l'). split; [|by eapply Hlt].
    apply Hk. by eapply list_elem_of_lookup_2.
  - unfold a_star_step.
    rewrite (bind_Ret _ _ _ _ _ Hmin).
    rewrite (bind_Ret _ _ _ _ _ (proj1 (Hkey l Hl))).
    set (h' := <[l := <["distance" := PFloat (k l)]> r]> (heap w)).
    assert (Hset : setitem l "distance" (PFloat (k l)) w = (Ret tt, set_heap h' w)).
    { unfold setitem, bind, deref. by rewrite Hr. }
    rewrite (bind_Ret _ _ _ _ _ Hset).
    assert (Hpt : point_of l (set_heap h' w) = (Ret p, set_heap h' w)).
    { apply (point_of_ok l (<["distance" := PFloat (k l)]> r)).
      - simpl. unfold h'. by rewrite lookup_insert_eq.
      - by rewrite coords_insert_distance. }
    rewrite (bind_Ret _ _ _ _ _ Hpt).
    assert (Hrm : list_remove l museums (set_heap h' w) =
                  (Ret (delete i museums), set_heap h' w)).
    { unfold list_remove. simpl.
      rewrite (remove_first_delete _ museums i l Hi); [done| |].
      - unfold obj_eq. by rewrite bool_decide_eq_true_2.
      - intros j y Hj Hy.
        assert (Hy' : y ∈ museums) by (by eapply list_elem_of_lookup_2).
        pose proof (Hlt j y Hj Hy) as Hstrict.
        assert (Hyl : y <> l).
        { intros ->. by rewrite FloatOrder.ltb_irrefl in Hstrict. }
        unfold obj_eq. rewrite bool_decide_eq_false_2 by done. simpl.
        apply bool_decide_eq_false_2. unfold h'.
        rewrite lookup_insert_eq, lookup_insert_ne by done.
        intros Heq.
        assert (k y = k l) as Hkk; [|rewrite Hkk, FloatOrder.ltb_irrefl in Hstrict; done].
        pose proof (Hk y Hy') as Hy''. unfold km in Hy'', Hkm.
        rewrite Heq, coords_insert_distance in Hy''. rewrite Hr in Hkm.
        rewrite Hkm in Hy''. by inversion Hy''. }
    by rewrite (bind_Ret _ _ _ _ _ Hrm).
Qed.

Lemma route_ok_reach_inv h start museums :
  route_ok geodesic h start museums = true -> reach_inv geodesic h start museums.
Proof.
  unfold route_ok. intros [H1 H2]%andb_true_iff. split; [done|].
  intros l r p Hl Hr Hp. rewrite forallb_forall in H2.
  apply list_elem_of_In in Hl. specialize (H2 l Hl). by rewrite Hr, Hp in H2.
Qed.

Lemma in_reach_subset h p museums museums' :
  (forall l, l ∈ museums' -> l ∈ museums) ->
  in_reach geodesic h p museums = true -> in_reach geodesic h p museums' = true.
Proof. rewrite !in_reach_spec. auto. Qed.

Lemma reach_inv_step h cur museums i l r p v :
  reach_inv geodesic h cur museums ->
  museums !! i = Some l -> h !! l = Some r -> coords r = Some p ->
  reach_inv geodesic (<[l := <["distance" := v]> r]> h) p (delete i museums).
Proof.
  intros [_ Hall] Hi Hr Hp.
  assert (Hl : l ∈ museums) by (by eapply list_elem_of_lookup_2).
  assert (Hsub : forall x, x ∈ delete i museums -> x ∈ museums)
    by (intros x; apply list_elem_of_delete_inv).
  split.
  - rewrite (in_reach_insert_distance _ _ _ _ _ _ Hr).
    eapply in_reach_subset; [exact Hsub|]. by apply (Hall l r p).
  - intros l1 r1 p1 Hl1 Hr1 Hp1.
    rewrite (in_reach_insert_distance _ _ _ _ _ _ Hr).
    eapply in_reach_subset; [exact Hsub|].
    destruct (decide (l = l1)) as [<-|Hne].
    + rewrite lookup_insert_eq in Hr1. inversion Hr1; subst r1.
      rewrite coords_insert_distance in Hp1. by apply (Hall l r p1).
    + rewrite lookup_insert_ne in Hr1 by done.
      apply (Hall l1 r1 p1); [by apply Hsub|done|done].
Qed.

(** The whole loop, from any state that satisfies the invariant: it returns,
    it has emptied the working list, the records it appended are the working
    list in another order, and each of them differs from what it was in its
    [distance] field only. *)
Lemma a_star_loop_spec fuel : forall cur museums trip w,
  (length museums <= fuel)%nat ->
  reach_inv geodesic (heap w) cur museums ->
  exists out w',
    a_star_loop geodesic fuel cur museums trip w = (Ret (trip ++ out, []), w') /\
    Permutation out museums /\
    requests w' = requests w /\
    (forall l, l ∉ museums -> heap w' !! l = heap w !! l) /\
    (forall l, l ∈ museums -> exists r d,
       heap w !! l = Some r /\ heap w' !! l = Some (<["distance" := PFloat d]> r)).
Proof.
  induction fuel as [|fuel IH]; intros cur museums trip w Hlen Hinv.
  - destruct museums as [|m museums]; [|simpl in Hlen; lia].
    exists [], w. rewrite app_nil_r. repeat split; try done.
    intros l Hl. by apply elem_of_nil in Hl.
  - destruct museums as [|m museums].
    { exists [], w. rewrite app_nil_r. repeat split; try done.
      intros l Hl. by apply elem_of_nil in Hl. }
    remember (m :: museums) as ms eqn:Hms.
    assert (Hne : ms <> []) by (by subst).
    destruct (a_star_step_spec cur ms trip w Hne (proj1 Hinv))
      as (i & l & r & d & p & Hi & Hr & Hp & Hkm & Hle & Hlt & Hstep).
    clear Hkm Hle Hlt.
    set (w1 := set_heap (<[l := <["distance" := PFloat d]> r]> (heap w)) w) in *.
    assert (Hlen' : (length (delete i ms) <= fuel)%nat).
    { rewrite length_delete by (by rewrite Hi). lia. }
    pose proof (reach_inv_step _ _ _ _ _ _ _ (PFloat d) Hinv Hi Hr Hp) as Hinv'.
    destruct (IH p (delete i ms) (trip ++ [l]) w1 Hlen' Hinv')
      as (out & w' & Hrun & Hperm & Hreq & Hout & Hin).
    exists (l :: out), w'.
    assert (Hpm : Permutation ms (l :: delete i ms)) by (by apply delete_Permutation).
    split; [|split; [|split; [|split]]].
    + rewrite Hms at 1. simpl. rewrite <- Hms.
      rewrite (bind_Ret _ _ _ _ _ Hstep). rewrite Hrun.
      by rewrite <- app_assoc.
    + rewrite Hpm. by constructor.
    + by rewrite Hreq.
    + intros x Hx.
      assert (x <> l) as Hxl.
      { intros ->. apply Hx. by eapply list_elem_of_lookup_2. }
      rewrite Hout.
      * unfold w1. simpl. by rewrite lookup_insert_ne.
      * intros Hx'. by apply Hx, (list_elem_of_delete_inv x i).
    + intros x Hx. destruct (decide (x ∈ delete i ms)) as [Hx'|Hx'].
      * destruct (Hin x Hx') as (r1 & d1 & Hr1 & Hr1').
        unfold w1 in Hr1. simpl in Hr1.
        destruct (decide (l = x)) as [<-|Hne'].
        -- rewrite lookup_insert_eq in Hr1. inversion Hr1; subst r1.
           exists r, d1. split; [done|]. by rewrite Hr1', insert_insert_eq.
        -- rewrite lookup_insert_ne in Hr1 by done. by exists r1, d1.
      * assert (x = l) as ->.
        { rewrite Hpm in Hx. apply elem_of_cons in Hx. by destruct Hx. }
        exists r, d. split; [done|]. rewrite (Hout l Hx').
        unfold w1. simpl. by rewrite lookup_insert_eq.
Qed.

(** *** Any run of the loop, whatever the records hold *)

Lemma distance_from_fuel cur l w : (distance_from geodesic cur l w).1 <> OutOfFuel.
Proof.
  unfold distance_from, bind. rewrite point_of_eq.
  destruct (heap w !! l) as [d|]; [|done].
  destruct (d !! "latitude"); [|done]. destruct (d !! "longitude"); [|done].
  unfold call. simpl. by destruct (heuristic geodesic cur _).
Qed.

Lemma same_but_distance_refl h : same_but_distance h h.
Proof. intros l. by left. Qed.

Lemma same_but_distance_trans h1 h2 h3 :
  same_but_distance h1 h2 -> same_but_distance h2 h3 -> same_but_distance h1 h3.
Proof.
  intros H12 H23 l.
  destruct (H12 l) as [E12|(r & d & Hr & Hr')], (H23 l) as [E23|(r2 & d2 & Hr2 & Hr2')].
  - left. congruence.
  - right. exists r2, d2. split; congruence.
  - right. exists r, d. split; congruence.
  - right. exists r, d2. split; [done|]. rewrite Hr2'.
    assert (r2 = <["distance" := PFloat d]> r) as -> by congruence.
    by rewrite insert_insert_eq.
Qed.

Lemma same_but_distance_insert h l r d :
  h !! l = Some r -> same_but_distance h (<[l := <["distance" := PFloat d]> r]> h).
Proof.
  intros Hr l'. destruct (decide (l = l')) as [<-|Hne].
  - right. exists r, d. by rewrite lookup_insert_eq.
  - left. by rewrite lookup_insert_ne.
Qed.

Lemma same_but_distance_lookup h h' l r :
  same_but_distance h h' -> h !! l = Some r ->
  exists r', h' !! l = Some r' /\ forall key, key <> "distance" -> r' !! key = r !! key.
Proof.
  intros H Hr. destruct (H l) as [E|(r0 & d & Hr0 & Hr')].
  - exists r. split; [congruence|done].
  - exists (<["distance" := PFloat d]> r0). split; [done|].
    intros key Hkey. rewrite lookup_insert_ne by done. congruence.
Qed.

Lemma same_but_distance_None h h' l :
  same_but_distance h h' -> h !! l = None -> h' !! l = None.
Proof.
  intros H Hr. destruct (H l) as [E|(r0 & d & Hr0 & Hr')]; congruence.
Qed.

(** An iteration either raises before it has touched anything, or sets the
    [distance] of one record of the working list and goes on. *)
Lemma a_star_step_cases cur museums trip w :
  exists o w',
    a_star_step geodesic cur museums trip w = (o, w') /\
    requests w' = requests w /\ o <> OutOfFuel /\
    ((heap w' = heap w /\ forall x, o <> Ret x) \/
     (exists l r d,
        l ∈ museums /\ heap w !! l = Some r /\
        heap w' = <[l := <["distance" := PFloat d]> r]> (heap w) /\
        forall p museums' trip', o = Ret (p, museums', trip') ->
          trip' = trip ++ [l] /\ length museums = S (length museums') /\
          forall x, x ∈ museums' -> x ∈ museums)).
Proof.
  unfold a_star_step.
  destruct (py_min_any (distance_from geodesic cur) (distance_from_world _ cur)
              (distance_from_fuel cur) museums w) as (Hw1 & Hf1 & Hin).
  unfold bind at 1.
  destruct (py_min (distance_from geodesic cur) museums w) as [[l|e|] w1];
    simpl in *; subst w1; [| |done].
  2: { eexists _, _. split; [reflexivity|]. split; [reflexivity|].
       split; [discriminate|]. left. split; [reflexivity|]. discriminate. }
  specialize (Hin l eq_refl).
  unfold bind at 1.
  pose proof (distance_from_world geodesic cur l w) as Hw2.
  pose proof (distance_from_fuel cur l w) as Hf2.
  destruct (distance_from geodesic cur l w) as [[d|e|] w2]; simpl in *; subst w2;
    [| |done].
  2: { eexists _, _. split; [reflexivity|]. split; [reflexivity|].
       split; [discriminate|]. left. split; [reflexivity|]. discriminate. }
  unfold bind at 1. unfold setitem at 1. unfold bind at 1, deref at 1.
  destruct (heap w !! l) as [r|] eqn:Hr; simpl.
  2: { eexists _, _. split; [reflexivity|]. split; [reflexivity|].
       split; [discriminate|]. left. split; [reflexivity|]. discriminate. }
  set (w1 := set_heap (<[l := <["distance" := PFloat d]> r]> (heap w)) w).
  unfold bind at 1. rewrite point_of_eq.
  destruct (match heap w1 !! l with Some _ => _ | None => _ end) as [p|e|] eqn:Hp.
  3: { exfalso. destruct (heap w1 !! l) as [r1|]; [|done].
       destruct (r1 !! "latitude"); [|done]. by destruct (r1 !! "longitude"). }
  2: { eexists _, _. split; [reflexivity|]. split; [reflexivity|].
       split; [discriminate|]. right. exists l, r, d.
       split; [done|]. split; [done|]. split; [done|]. discriminate. }
  unfold bind at 1, list_remove at 1.
  destruct (remove_first _ museums) as [museums'|] eqn:Hrm; simpl.
  - eexists _, _. split; [reflexivity|]. split; [reflexivity|].
    split; [discriminate|]. right. exists l, r, d.
    split; [done|]. split; [done|]. split; [done|].
    intros p0 ms0 t0 [= <- <- <-]. split; [done|].
    split; [by eapply remove_first_length|].
    destruct (remove_first_Permutation _ _ _ Hrm) as (y & _ & Hperm).
    intros x Hx. rewrite Hperm. rewrite elem_of_cons. by right.
  - eexists _, _. split; [reflexivity|]. split; [reflexivity|].
    split; [discriminate|]. right. exists l, r, d.
    split; [done|]. split; [done|]. split; [done|]. discriminate.
Qed.

Lemma a_star_loop_any fuel : forall cur museums trip w,
  exists o w',
    a_star_loop geodesic fuel cur museums trip w = (o, w') /\
    requests w' = requests w /\
    same_but_distance (heap w) (heap w') /\
    ((length museums <= fuel)%nat -> o <> OutOfFuel) /\
    forall t rest, o = Ret (t, rest) ->
      rest = [] /\
      forall l, l ∈ t -> l ∈ trip \/ (l ∈ museums /\ is_Some (heap w !! l)).
Proof.
  induction fuel as [|fuel IH]; intros cur museums trip w.
  - destruct museums as [|m museums]; simpl.
    + exists (Ret (trip, [])), w. repeat split; try done.
      * apply same_but_distance_refl.
      * by inversion H.
      * inversion H; subst. auto.
    + exists OutOfFuel, w. repeat split; try done.
      * apply same_but_distance_refl.
      * simpl. lia.
  - destruct museums as [|m museums].
    { exists (Ret (trip, [])), w. simpl. repeat split; try done.
      - apply same_but_distance_refl.
      - by inversion H.
      - inversion H; subst. auto. }
    remember (m :: museums) as ms eqn:Hms.
    destruct (a_star_step_cases cur ms trip w) as (o & w1 & Hstep & Hreq & Hfuel & Hcases).
    assert (Hrun : a_star_loop geodesic (S fuel) cur ms trip w =
                   match o with
                   | Ret (c, m', t) => a_star_loop geodesic fuel c m' t w1
                   | Raise e => (Raise e, w1)
                   | OutOfFuel => (OutOfFuel, w1)
                   end).
    { rewrite Hms at 1. simpl. rewrite <- Hms. unfold bind. rewrite Hstep.
      by destruct o as [[[c m'] t]|e|]. }
    rewrite Hrun. clear Hrun.
    assert (Hsame : same_but_distance (heap w) (heap w1)).
    { destruct Hcases as [[-> _]|(l & r & d & _ & Hr & -> & _)].
      - apply same_but_distance_refl.
      - by apply same_but_distance_insert. }
    destruct o as [[[c m'] t]|e|]; [| |done].
    + destruct Hcases as [[_ Hno]|(l & r & d & Hl & Hr & Hh & Hret)].
      { by specialize (Hno (c, m', t)). }
      destruct (Hret c m' t eq_refl) as (-> & Hlen & Hsub).
      destruct (IH c m' (trip ++ [l]) w1) as (o' & w' & Hrun & Hreq' & Hsame' & Hfuel' & Hres).
      exists o', w'. split; [done|]. split; [congruence|]. split.
      { by eapply same_but_distance_trans. }
      split; [intros Hle; apply Hfuel'; lia|].
      intros t rest Heq. destruct (Hres t rest Heq) as [-> Hin]. split; [done|].
      intros x Hx. destruct (Hin x Hx) as [Hx'|Hx'].
      * apply elem_of_app in Hx' as [Hx'|Hx']; [by left|].
        apply list_elem_of_singleton in Hx'. subst. right. by rewrite Hr.
      * right. destruct Hx' as [Hx' Hsome]. split; [by apply Hsub|].
        destruct (heap w !! x) eqn:Hx0; [done|].
        rewrite (same_but_distance_None _ _ _ Hsame Hx0) in Hsome.
        by destruct Hsome.
    + exists (Raise e), w1. repeat split; try done.
Qed.

(** The loop of [a_star_search] always ends: the model never runs out of the
    [length museums] iterations it is given. *)
Lemma a_star_search_terminates start museums w :
  (a_star_search geodesic start museums w).1 <> OutOfFuel.
Proof.
  unfold a_star_search.
  destruct (a_star_loop_any (length museums) start museums [] w)
    as (o & w' & -> & _ & _ & Hfuel & _).
  by apply Hfuel.
Qed.


(** C2. The trip sequencer returns a trip plan that is a permutation of the
    list it was given, of the same length, and leaves the working list empty,
    whenever every distance it may ask for is defined. *)
Theorem a_star_search_permutation start museums w :
  route_ok geodesic (heap w) start museums = true ->
  exists trip_plan w',
    a_star_search geodesic start museums w = (Ret (trip_plan, []), w') /\
    Permutation trip_plan museums /\
    length trip_plan = length museums.
Proof.
  intros Hok%route_ok_reach_inv.
  destruct (a_star_loop_spec (length museums) start museums [] w (le_n _) Hok)
    as (out & w' & Hrun & Hperm & _).
  exists out, w'. split; [exact Hrun|]. split; [exact Hperm|].
  by apply Permutation_length.
Qed.

(** C10. Whatever [a_star_search] does to the heap is setting the [distance]
    field of records; every record of the returned trip plan is a record of
    the input, and each of its fields other than [distance] (so [name],
    [latitude], [longitude], [city], [imageUrl]) has the value it had on
    entry. *)
Theorem a_star_search_only_sets_distance start museums w o w' :
  a_star_search geodesic start museums w = (o, w') ->
  same_but_distance (heap w) (heap w') /\
  forall trip_plan rest, o = Ret (trip_plan, rest) ->
    forall l, l ∈ trip_plan ->
      l ∈ museums /\
      exists r r', heap w !! l = Some r /\ heap w' !! l = Some r' /\
        forall key, key <> "distance" -> r' !! key = r !! key.
Proof.
  unfold a_star_search. intros Hrun.
  destruct (a_star_loop_any (length museums) start museums [] w)
    as (o1 & w1 & Hrun1 & _ & Hsame & _ & Hres).
  rewrite Hrun in Hrun1. inversion Hrun1; subst o1 w1. split; [exact Hsame|].
  intros trip_plan rest -> l Hl.
  destruct (Hres trip_plan rest eq_refl) as [_ Hin].
  destruct (Hin l Hl) as [Hnil|[Hm [r Hr]]]; [by apply elem_of_nil in Hnil|].
  split; [exact Hm|].
  destruct (same_but_distance_lookup _ _ _ _ Hsame Hr) as (r' & Hr' & Hkeys).
  by exists r, r'.
Qed.

End Sequencer.


Lemma a_star_search_permutation_witness :
  route_ok Fixture.geodesic (heap Fixture.w3) Fixture.start [0; 1; 2]%nat = true /\
  exists trip_plan w',
    a_star_search Fixture.geodesic Fixture.start [0; 1; 2]%nat Fixture.w3 =
      (Ret (trip_plan, []), w') /\
    Permutation trip_plan [0; 1; 2]%nat /\
    length trip_plan = length [0; 1; 2]%nat.
Proof.
  split; [vm_compute; reflexivity|].
  apply (a_star_search_permutation Fixture.geodesic Fixture.start [0; 1; 2]%nat
           Fixture.w3).
  vm_compute; reflexivity.
Defined.

(** On the three records, starting at the Coptic Museum, the trip plan is
    Coptic Museum, Egyptian Museum, Grand Egyptian Museum. *)
Example a_star_search_run :
  (a_star_search Fixture.geodesic Fixture.start [0; 1; 2]%nat Fixture.w3).1 =
  Ret ([1; 0; 2]%nat, []).
Proof. vm_compute. reflexivity. Qed.

Lemma a_star_search_only_sets_distance_witness :
  let run := a_star_search Fixture.geodesic Fixture.start [0; 1; 2]%nat Fixture.w3 in
  run.1 = Ret ([1; 0; 2]%nat, []) /\
  same_but_distance (heap Fixture.w3) (heap run.2) /\
  forall trip_plan rest, run.1 = Ret (trip_plan, rest) ->
    forall l, l ∈ trip_plan ->
      l ∈ [0; 1; 2]%nat /\
      exists r r', heap Fixture.w3 !! l = Some r /\ heap run.2 !! l = Some r' /\
        forall key, key <> "distance" -> r' !! key = r !! key.
Proof.
  intros run. split; [vm_compute; reflexivity|].
  apply (a_star_search_only_sets_distance Fixture.geodesic Fixture.start
           [0; 1; 2]%nat Fixture.w3 run.1 run.2).
  apply surjective_pairing.
Defined.

(** ** The geolocation client *)

Section Geolocation.
Variable requests_get : list string -> string -> outcome Response.
Variable float_of_str : string -> option float.

Lemma get_current_location_eq w :
  get_current_location requests_get float_of_str w =
  (Ret match parse_location float_of_str (requests_get (requests w) "https://ipinfo.io") with
       | Some (x, y) => (PFloat x, PFloat y)
       | None => (PNone, PNone)
       end,
   after_geolocation w).
Proof.
  unfold get_current_location, try_except, get_current_location_try, parse_location,
    bind, http_get, call, ret, raise, after_geolocation.
  destruct (requests_get (requests w) "https://ipinfo.io") as [resp|e]; simpl; [|done].
  destruct (json resp) as [data|e]; simpl; [|done].
  destruct (py_contains "loc" data) as [[|]|e]; simpl; [|done|done].
  destruct (py_getitem data "loc") as [v|e]; simpl; [|done].
  destruct (py_split v) as [[|a [|b [|c parts]]]|e]; simpl; try done.
  destruct (float_of_str a) as [x|]; simpl; [|done].
  by destruct (float_of_str b) as [y|].
Qed.

Lemma parse_location_Some answer x y :
  parse_location float_of_str answer = Some (x, y) ->
  exists resp data s a b,
    answer = Returns resp /\ json resp = Returns data /\
    py_getitem data "loc" = Returns (PStr s) /\ split_on "," s = [a; b] /\
    float_of_str a = Some x /\ float_of_str b = Some y.
Proof.
  unfold parse_location.
  destruct answer as [resp|e]; [|done].
  destruct (json resp) as [data|e] eqn:Hjson; [|done].
  destruct (py_contains "loc" data) as [[|]|e]; [|done|done].
  destruct (py_getitem data "loc") as [v|e] eqn:Hget; [|done].
  destruct v as [| | | |s| |]; simpl; try done.
  destruct (split_on "," s) as [|a [|b [|c parts]]] eqn:Hsplit; try done.
  destruct (float_of_str a) as [x'|] eqn:Ha; [|done].
  destruct (float_of_str b) as [y'|] eqn:Hb; [|done].
  intros [= <- <-]. by exists resp, data, s, a, b.
Qed.

(** C7. [get_current_location] never raises: it always returns a pair.  When
    the request fails, when the answer is not JSON, when the JSON object has
    no [loc] field, or when the field cannot be read as two floats, the pair
    is [(None, None)]. *)
Theorem get_current_location_absent w :
  (exists r, get_current_location requests_get float_of_str w =
               (Ret r, after_geolocation w)) /\
  (forall e, requests_get (requests w) "https://ipinfo.io" = Raises e ->
     get_current_location requests_get float_of_str w =
       (Ret (PNone, PNone), after_geolocation w)) /\
  (forall resp e, requests_get (requests w) "https://ipinfo.io" = Returns resp ->
     json resp = Raises e ->
     get_current_location requests_get float_of_str w =
       (Ret (PNone, PNone), after_geolocation w)) /\
  (forall resp d, requests_get (requests w) "https://ipinfo.io" = Returns resp ->
     json resp = Returns (PDict d) -> d !! "loc" = None ->
     get_current_location requests_get float_of_str w =
       (Ret (PNone, PNone), after_geolocation w)) /\
  (forall resp d v, requests_get (requests w) "https://ipinfo.io" = Returns resp ->
     json resp = Returns (PDict d) -> d !! "loc" = Some v ->
     (forall s a b, v = PStr s -> split_on "," s = [a; b] ->
        float_of_str a = None \/ float_of_str b = None) ->
     get_current_location requests_get float_of_str w =
       (Ret (PNone, PNone), after_geolocation w)).
Proof.
  rewrite get_current_location_eq. split; [by eexists|].
  split; [|split; [|split]].
  - by intros e ->.
  - intros resp e -> Hjson. simpl. by rewrite Hjson.
  - intros resp d -> Hjson Hloc. simpl. rewrite Hjson. simpl.
    rewrite bool_decide_eq_false_2; [done|]. rewrite Hloc. by intros [? ?].
  - intros resp d v -> Hjson Hloc Hparse.
    destruct (parse_location float_of_str (Returns resp)) as [[x y]|] eqn:Hp; [|done].
    apply parse_location_Some in Hp
      as (resp' & data & s & a & b & [= <-] & Hj & Hg & Hs & Ha & Hb).
    rewrite Hjson in Hj. inversion Hj; subst data. simpl in Hg.
    unfold dict_getitem in Hg. rewrite Hloc in Hg. inversion Hg; subst v.
    destruct (Hparse s a b eq_refl Hs); congruence.
Qed.

(** C9. [get_current_location] returns [(None, None)] or a pair of two
    floats, both read from the two parts of the provider's [loc] string; it
    never returns a pair with exactly one [None].  So the handler's test
    [latitude is None or longitude is None] holds exactly for
    [(None, None)].  [PNone] is Python's [None]. *)
Theorem get_current_location_all_or_nothing w :
  exists lat lon,
    get_current_location requests_get float_of_str w =
      (Ret (lat, lon), after_geolocation w) /\
    ((lat = PNone /\ lon = PNone) \/
     (exists resp data s a b x y,
        requests_get (requests w) "https://ipinfo.io" = Returns resp /\
        json resp = Returns data /\
        py_getitem data "loc" = Returns (PStr s) /\ split_on "," s = [a; b] /\
        float_of_str a = Some x /\ float_of_str b = Some y /\
        lat = PFloat x /\ lon = PFloat y)) /\
    (is_None lat || is_None lon = true <-> (lat, lon) = (PNone, PNone)).
Proof.
  rewrite get_current_location_eq.
  destruct (parse_location float_of_str (requests_get (requests w) "https://ipinfo.io"))
    as [[x y]|] eqn:Hp.
  - exists (PFloat x), (PFloat y). split; [done|]. split; [|done].
    right. apply parse_location_Some in Hp as (resp & data & s & a & b & H).
    exists resp, data, s, a, b, x, y. tauto.
  - exists PNone, PNone. split; [done|]. split; [by left|done].
Qed.

End Geolocation.

Lemma get_current_location_absent_witness :
  get_current_location Fixture.requests_get_noloc Fixture.float_of_str Fixture.w0 =
    (Ret (PNone, PNone), after_geolocation Fixture.w0) /\
  get_current_location Fixture.requests_get Fixture.float_of_str Fixture.w0 =
    (Ret (PFloat 30, PFloat 31), after_geolocation Fixture.w0).
Proof.
  split; [|vm_compute; reflexivity].
  apply (proj1 (proj2 (proj2 (proj2
           (get_current_location_absent Fixture.requests_get_noloc
              Fixture.float_of_str Fixture.w0))))
         (mkResponse 200 (Returns (PDict (<["ip" := PStr "10.0.0.1"]> ∅))))
         (<["ip" := PStr "10.0.0.1"]> ∅));
    vm_compute; reflexivity.
Defined.

(** ** The museum data client and the aggregator *)

Section Aggregator.
Variable requests_get : list string -> string -> outcome Response.

Lemma dicts_of_fmap items ds : dicts_of items = Some ds -> items = PDict <$> ds.
Proof.
  revert ds. induction items as [|x items IH]; intros ds; simpl.
  - by intros [= <-].
  - destruct x; try done. destruct (dicts_of items) as [ds'|]; [|done].
    intros [= <-]. simpl. by rewrite (IH ds').
Qed.

Lemma clean_museum_data_spec ds : forall w,
  exists ls w',
    clean_museum_data (PDict <$> ds) w = (Ret ls, w') /\
    requests w' = requests w /\
    NoDup ls /\
    (forall l, l ∈ ls -> heap w !! l = None) /\
    (forall l, is_Some (heap w !! l) -> heap w' !! l = heap w !! l) /\
    Forall2 (fun l d => heap w' !! l = Some (strip_id d)) ls ds.
Proof.
  induction ds as [|d ds IH]; intros w; simpl.
  - exists [], w. repeat split; try done; try constructor.
    intros l Hl. by apply elem_of_nil in Hl.
  - unfold bind at 1, alloc at 1.
    set (l := fresh (dom (heap w))).
    assert (Hl : heap w !! l = None).
    { apply not_elem_of_dom. apply is_fresh. }
    set (w1 := set_heap (<[l := strip_id d]> (heap w)) w).
    destruct (IH w1) as (ls & w' & Hrun & Hreq & Hnd & Hfresh & Hkeep & Hall).
    exists (l :: ls), w'. unfold bind.
    change (list_fmap dict pyobj PDict ds) with (PDict <$> ds).
    rewrite Hrun. split; [done|].
    assert (Hl1 : heap w1 !! l = Some (strip_id d)).
    { unfold w1. simpl. by rewrite lookup_insert_eq. }
    split; [by rewrite Hreq|]. split; [|split; [|split]].
    + constructor; [|done]. intros Hin. specialize (Hfresh l Hin). congruence.
    + intros x [->|Hx]%elem_of_cons; [done|].
      specialize (Hfresh x Hx). unfold w1 in Hfresh. simpl in Hfresh.
      destruct (decide (l = x)) as [<-|Hne]; [done|].
      by rewrite lookup_insert_ne in Hfresh.
    + intros x Hx. assert (l <> x) by (intros <-; rewrite Hl in Hx; by destruct Hx).
      rewrite Hkeep; unfold w1; simpl; by rewrite lookup_insert_ne.
    + constructor; [|done]. rewrite Hkeep by (by rewrite Hl1). done.
Qed.

Lemma set_city_spec city ls : forall w,
  NoDup ls ->
  (forall l, l ∈ ls -> is_Some (heap w !! l)) ->
  exists w',
    set_city ls city w = (Ret tt, w') /\
    requests w' = requests w /\
    (forall l, l ∉ ls -> heap w' !! l = heap w !! l) /\
    (forall l d, l ∈ ls -> heap w !! l = Some d ->
       heap w' !! l = Some (<["city" := PStr city]> d)).
Proof.
  induction ls as [|l ls IH]; intros w Hnd Halloc; simpl.
  - exists w. repeat split; try done.
    intros l d Hl. by apply elem_of_nil in Hl.
  - apply NoDup_cons in Hnd as [Hl Hnd].
    destruct (Halloc l) as [d Hd]; [by left|].
    unfold bind at 1, setitem at 1, bind at 1, deref at 1. rewrite Hd. simpl.
    set (w1 := set_heap (<[l := <["city" := PStr city]> d]> (heap w)) w).
    destruct (IH w1 Hnd) as (w' & Hrun & Hreq & Hout & Hin).
    { intros x Hx. unfold w1. simpl.
      destruct (decide (l = x)) as [<-|Hne]; [by rewrite lookup_insert_eq|].
      rewrite lookup_insert_ne by done. apply Halloc. by right. }
    exists w'. split; [done|]. split; [by rewrite Hreq|]. split.
    + intros x Hx. apply not_elem_of_cons in Hx as [Hxl Hx].
      rewrite (Hout x Hx). unfold w1. simpl. by rewrite lookup_insert_ne.
    + intros x dx [->|Hx]%elem_of_cons Hdx.
      * rewrite (Hout l Hl). unfold w1. simpl. rewrite lookup_insert_eq. congruence.
      * apply (Hin x dx Hx). unfold w1. simpl.
        rewrite lookup_insert_ne; [done|]. by intros <-.
Qed.

Lemma clean_museum_data_raises items : forall w,
  dicts_of items = None ->
  exists e w', clean_museum_data items w = (Raise e, w').
Proof.
  induction items as [|x items IH]; intros w; simpl; [done|].
  destruct x; try by (intros _; eexists _, _).
  destruct (dicts_of items) as [ds|]; [done|]. intros _.
  unfold bind at 1, alloc at 1.
  set (w2 := set_heap _ w).
  destruct (IH w2 eq_refl) as (e & w' & Hrun).
  exists e, w'. unfold bind. by rewrite Hrun.
Qed.

Lemma fetch_museum_data_eq city w :
  let w1 := World (heap w) (requests w ++ [museum_url city]) in
  fetch_museum_data requests_get city w =
  match requests_get (requests w) (museum_url city) with
  | Returns resp =>
      if (status_code resp =? 200)%Z then
        match json resp with
        | Returns data =>
            match py_iter data with
            | Returns items =>
                (cleaned_museum_data <- clean_museum_data items ;;
                 ret (Some (mkMuseumsDict city cleaned_museum_data))) w1
            | Raises e => (Raise e, w1)
            end
        | Raises e => (Raise e, w1)
        end
      else (Ret None, w1)
  | Raises e => (Raise e, w1)
  end.
Proof.
  intros w1. unfold fetch_museum_data.
  unfold bind at 1, http_get at 1. fold w1.
  destruct (requests_get (requests w) (museum_url city)) as [resp|e]; simpl; [|done].
  destruct (status_code resp =? 200)%Z; [|done].
  unfold bind at 1, call at 1.
  destruct (json resp) as [data|e]; simpl; [|done].
  unfold bind at 1, call at 1.
  by destruct (py_iter data) as [items|e].
Qed.

(** The client, by the view of the answer it gets. *)
Lemma fetch_museum_data_spec city w :
  let w1 := World (heap w) (requests w ++ [museum_url city]) in
  match client_view (requests_get (requests w) (museum_url city)) with
  | Some None => fetch_museum_data requests_get city w = (Ret None, w1)
  | Some (Some ds) =>
      exists ls w',
        fetch_museum_data requests_get city w = (Ret (Some (mkMuseumsDict city ls)), w') /\
        requests w' = requests w ++ [museum_url city] /\
        NoDup ls /\
        (forall l, l ∈ ls -> heap w !! l = None) /\
        (forall l, is_Some (heap w !! l) -> heap w' !! l = heap w !! l) /\
        Forall2 (fun l d => heap w' !! l = Some (strip_id d)) ls ds
  | None =>
      exists e w', fetch_museum_data requests_get city w = (Raise e, w')
  end.
Proof.
  intros w1. rewrite fetch_museum_data_eq. fold w1. unfold client_view.
  destruct (requests_get (requests w) (museum_url city)) as [resp|e].
  2: { by exists e, w1. }
  destruct (status_code resp =? 200)%Z; [|done].
  destruct (json resp) as [data|e].
  2: { by exists e, w1. }
  destruct (py_iter data) as [items|e].
  2: { by exists e, w1. }
  destruct (dicts_of items) as [ds|] eqn:Hds.
  - apply dicts_of_fmap in Hds as ->.
    destruct (clean_museum_data_spec ds w1) as (ls & w' & Hrun & Hreq & H).
    exists ls, w'. unfold bind. rewrite Hrun. by split.
  - destruct (clean_museum_data_raises items w1 Hds) as (e & w' & Hrun).
    exists e, w'. unfold bind. by rewrite Hrun.
Qed.

Lemma fetch_museums_loop_spec cities : forall all_museums w,
  upstream_ok requests_get (requests w) cities = true ->
  exists museums w',
    fetch_museums_loop requests_get cities all_museums w =
      (Ret (all_museums ++ museums), w') /\
    requests w' = requests w ++ (museum_url <$> cities) /\
    Forall2 (fun l d => heap w' !! l = Some d) museums
            (aggregate_spec requests_get (requests w) cities) /\
    NoDup museums /\
    (forall l, l ∈ museums -> heap w !! l = None) /\
    (forall l, is_Some (heap w !! l) -> heap w' !! l = heap w !! l).
Proof.
  induction cities as [|city rest IH]; intros acc w Hok.
  - exists [], w. simpl. rewrite !app_nil_r. repeat split; try done; try constructor.
    intros l Hl. by apply elem_of_nil in Hl.
  - simpl in Hok. cbn [fetch_museums_loop aggregate_spec].
    pose proof (fetch_museum_data_spec city w) as Hclient. simpl in Hclient.
    destruct (client_view (requests_get (requests w) (museum_url city)))
      as [[ds|]|]; [| |done].
    + destruct Hclient as (ls & w1 & Hrun & Hreq1 & Hnd & Hfresh & Hkeep & Hall).
      rewrite (bind_Ret _ _ _ _ _ Hrun). simpl.
      assert (Halloc : forall l, l ∈ ls -> is_Some (heap w1 !! l)).
      { intros l Hl. apply list_elem_of_lookup_1 in Hl as [i Hi].
        destruct (Forall2_lookup_l _ _ _ _ _ Hall Hi) as (d & _ & Hd). by rewrite Hd. }
      destruct (set_city_spec city ls w1 Hnd Halloc) as (w2 & Hset & Hreq2 & Hout & Hin).
      rewrite (bind_Ret _ _ _ _ _ Hset).
      rewrite <- Hreq1, <- Hreq2 in Hok.
      destruct (IH (acc ++ ls) w2 Hok) as (ms & w' & Hloop & Hreq & Hall' & Hnd' & Hfresh' & Hkeep').
      assert (Hw2 : forall l, is_Some (heap w !! l) -> heap w2 !! l = heap w !! l).
      { intros l Hl. rewrite Hout, Hkeep; [done..|].
        intros Hin'. rewrite (Hfresh l Hin') in Hl. by destruct Hl. }
      assert (Hls2 : forall l, l ∈ ls -> is_Some (heap w2 !! l)).
      { intros l Hl. destruct (Halloc l Hl) as [d Hd]. by rewrite (Hin l d Hl Hd). }
      exists (ls ++ ms), w'. split; [by rewrite Hloop, app_assoc|].
      split; [rewrite Hreq, Hreq2, Hreq1; by rewrite <- app_assoc|].
      split; [|split; [|split]].
      * apply Forall2_app.
        -- apply Forall2_fmap_r.
           apply Forall2_same_length_lookup in Hall as [Hlen Hall].
           apply Forall2_same_length_lookup. split; [done|].
           intros i l d Hl Hd. specialize (Hall i l d Hl Hd).
           assert (l ∈ ls) as Hl' by (by eapply list_elem_of_lookup_2).
           rewrite Hkeep' by (by apply Hls2). by apply Hin.
        -- by rewrite Hreq2, Hreq1 in Hall'.
      * apply NoDup_app. split; [done|]. split; [|done].
        intros l Hl Hl'. specialize (Hfresh' l Hl'). destruct (Hls2 l Hl). congruence.
      * intros l [Hl|Hl]%elem_of_app; [by apply Hfresh|].
        specialize (Hfresh' l Hl). destruct (heap w !! l) as [d|] eqn:Hw; [|done].
        rewrite (Hw2 l) in Hfresh' by (by rewrite Hw). congruence.
      * intros l Hl. rewrite Hkeep', Hw2; [done..|]. by rewrite Hw2.
    + rewrite (bind_Ret _ _ _ _ _ Hclient).
      destruct (IH acc (World (heap w) (requests w ++ [museum_url city])) Hok)
        as (ms & w' & Hloop & Hreq & Hall' & Hnd' & Hfresh' & Hkeep').
      exists ms, w'. split; [done|]. simpl in *.
      split; [by rewrite Hreq, <- app_assoc|]. done.
Qed.

Lemma aggregate_spec_city cities : forall log d,
  d ∈ aggregate_spec requests_get log cities ->
  exists city, city ∈ cities /\ d !! "city" = Some (PStr city) /\ d !! "id" = None.
Proof.
  induction cities as [|city rest IH]; intros log d; simpl.
  - intros Hd. by apply elem_of_nil in Hd.
  - intros [Hd|Hd]%elem_of_app.
    + exists city. split; [by left|].
      destruct (client_view _) as [[ds|]|]; try by apply elem_of_nil in Hd.
      apply list_elem_of_fmap in Hd as (d0 & -> & _).
      split; [by rewrite lookup_insert_eq|].
      rewrite lookup_insert_ne by done. unfold strip_id.
      apply map_lookup_filter_None. right. intros x _. simpl. by intros H.
    + destruct (IH _ d Hd) as (c & Hc & H). exists c. split; [by right|done].
Qed.

Lemma aggregate_spec_absent cities : forall log,
  (forall log' city, city ∈ cities ->
     client_view (requests_get log' (museum_url city)) = Some None) ->
  aggregate_spec requests_get log cities = [].
Proof.
  induction cities as [|city rest IH]; intros log Habs; simpl; [done|].
  rewrite (Habs log city) by (by left). simpl.
  apply IH. intros log' c Hc. apply Habs. by right.
Qed.

(** If the request of a city raises, the client raises the same exception:
    nothing in [fetch_museum_data] catches it. *)
Lemma fetch_museum_data_propagates city w e :
  requests_get (requests w) (museum_url city) = Raises e ->
  fetch_museum_data requests_get city w =
    (Raise e, World (heap w) (requests w ++ [museum_url city])).
Proof. intros H. rewrite fetch_museum_data_eq. by rewrite H. Qed.

(** C5. When no call of the museum data client raises, the aggregator
    returns; it has made one request per city, in input order; the records it
    returns are, in order, the records of each city that answered (nothing
    for a city that gave the absence signal), each with its [city] field
    overwritten by the queried city name (and without [id]); they are new,
    pairwise distinct objects, and no older object is touched.  An empty list
    of cities, or cities that all give the absence signal, yield the empty
    list. *)
Theorem fetch_museums_for_cities_spec cities w :
  upstream_ok requests_get (requests w) cities = true ->
  exists museums w',
    fetch_museums_for_cities requests_get cities w = (Ret museums, w') /\
    requests w' = requests w ++ (museum_url <$> cities) /\
    Forall2 (fun l d => heap w' !! l = Some d) museums
            (aggregate_spec requests_get (requests w) cities) /\
    (forall l, l ∈ museums ->
       exists d city, heap w' !! l = Some d /\ city ∈ cities /\
                      d !! "city" = Some (PStr city) /\ d !! "id" = None) /\
    NoDup museums /\
    (forall l, l ∈ museums -> heap w !! l = None) /\
    (forall l, is_Some (heap w !! l) -> heap w' !! l = heap w !! l) /\
    (cities = [] -> museums = []) /\
    ((forall log city, city ∈ cities ->
        client_view (requests_get log (museum_url city)) = Some None) ->
     museums = []).
Proof.
  intros Hok. unfold fetch_museums_for_cities.
  destruct (fetch_museums_loop_spec cities [] w Hok)
    as (museums & w' & Hrun & Hreq & Hall & Hnd & Hfresh & Hkeep).
  exists museums, w'. do 3 (split; [assumption|]).
  split; [|do 3 (split; [assumption|]); split].
  - intros l Hl. apply list_elem_of_lookup_1 in Hl as [i Hi].
    destruct (Forall2_lookup_l _ _ _ _ _ Hall Hi) as (d & Hd & Hheap).
    apply list_elem_of_lookup_2 in Hd.
    destruct (aggregate_spec_city _ _ _ Hd) as (city & Hc & Hcity & Hid).
    by exists d, city.
  - intros ->. simpl in Hall. by inversion Hall.
  - intros Habs. rewrite (aggregate_spec_absent _ _ Habs) in Hall. by inversion Hall.
Qed.

End Aggregator.

Lemma fetch_museums_for_cities_spec_witness :
  upstream_ok Fixture.requests_get (requests Fixture.w0) ["Cairo"; "Atlantis"; "Giza"] = true /\
  exists museums w',
    fetch_museums_for_cities Fixture.requests_get ["Cairo"; "Atlantis"; "Giza"] Fixture.w0 =
      (Ret museums, w') /\
    requests w' = requests Fixture.w0 ++ (museum_url <$> ["Cairo"; "Atlantis"; "Giza"]) /\
    Forall2 (fun l d => heap w' !! l = Some d) museums
      (aggregate_spec Fixture.requests_get (requests Fixture.w0)
         ["Cairo"; "Atlantis"; "Giza"]) /\
    (forall l, l ∈ museums ->
       exists d city, heap w' !! l = Some d /\ city ∈ ["Cairo"; "Atlantis"; "Giza"] /\
                      d !! "city" = Some (PStr city) /\ d !! "id" = None) /\
    NoDup museums /\
    (forall l, l ∈ museums -> heap Fixture.w0 !! l = None) /\
    (forall l, is_Some (heap Fixture.w0 !! l) -> heap w' !! l = heap Fixture.w0 !! l) /\
    (["Cairo"; "Atlantis"; "Giza"] = [] -> museums = []) /\
    ((forall log city, city ∈ ["Cairo"; "Atlantis"; "Giza"] ->
        client_view (Fixture.requests_get log (museum_url city)) = Some None) ->
     museums = []).
Proof.
  split; [vm_compute; reflexivity|].
  apply (fetch_museums_for_cities_spec Fixture.requests_get
           ["Cairo"; "Atlantis"; "Giza"] Fixture.w0).
  vm_compute; reflexivity.
Defined.

(** The records of Cairo and Giza, in that order, each tagged with its city;
    Atlantis, which answers 404, contributes nothing. *)
Example aggregate_spec_run :
  aggregate_spec Fixture.requests_get [] ["Cairo"; "Atlantis"; "Giza"] =
  [ Fixture.record "Egyptian Museum" "Cairo" 30 31;
    Fixture.record "Coptic Museum" "Cairo" 29.5 31;
    Fixture.record "Grand Egyptian Museum" "Giza" 29.5 30 ].
Proof. vm_compute. reflexivity. Qed.

(** C3 (the code departs from it). A network exception raised by the request
    of a city is not caught in [fetch_museum_data]: it escapes the client, the
    aggregator and both handlers, which therefore return no 400 response. *)
Theorem network_exception_escapes :
  fetch_museum_data Fixture.requests_get "Offline" Fixture.w0 =
    (Raise RequestException, World ∅ [museum_url "Offline"]) /\
  (fetch_museums_for_cities Fixture.requests_get ["Cairo"; "Offline"] Fixture.w0).1 =
    Raise RequestException /\
  (ShowMuseums_post Fixture.requests_get Fixture.field_format
     ["Cairo"; "Offline"] Fixture.w0).1 =
    Raise RequestException /\
  (PlanTrip_post Fixture.requests_get Fixture.geodesic Fixture.float_of_str
     Fixture.int_of_str Fixture.str_lower Fixture.field_format
     ["Cairo"; "Offline"] "1" Fixture.w0).1 =
    Raise RequestException.
Proof. repeat split; vm_compute; reflexivity. Qed.

(** ** The marshalling wrapper *)

Section Marshalling.
Variable field_format : raw_field -> pyobj -> outcome pyobj.

Lemma omap_length {A B} (f : A -> outcome B) l ys :
  omap f l = Returns ys -> length ys = length l.
Proof.
  revert ys. induction l as [|x l IH]; intros ys; simpl.
  - by intros [= <-].
  - destruct (f x) as [y|e]; simpl; [|done].
    destruct (omap f l) as [ys'|e]; simpl; [|done].
    intros [= <-]. simpl. by rewrite (IH ys').
Qed.

Lemma objects_any ls w : exists o, objects ls w = (o, w) /\ o <> OutOfFuel.
Proof.
  induction ls as [|l ls IH]; [by eexists|].
  cbn [objects]. unfold bind at 1, deref, call.
  destruct (heap w !! l) as [d|]; simpl; [|by eexists].
  unfold bind. destruct IH as (o & -> & Ho).
  destruct o; [by eexists|by eexists|done].
Qed.

Lemma objects_length ls w records w' :
  objects ls w = (Ret records, w') -> length records = length ls.
Proof.
  revert records. induction ls as [|l ls IH]; intros records.
  - by intros [= <- <-].
  - cbn [objects]. unfold bind at 1, deref, call.
    destruct (heap w !! l) as [d|]; simpl; [|done].
    unfold bind. destruct (objects_any ls w) as (o & Ho & _). rewrite Ho in *.
    destruct o as [rs|e|]; [|done|done].
    intros [= <- <-]. simpl. by rewrite (IH rs).
Qed.

(** The records as the heap holds them. *)
Lemma objects_spec ls ds w :
  Forall2 (fun l d => heap w !! l = Some d) ls ds ->
  objects ls w = (Ret (PDict <$> ds), w).
Proof.
  induction 1 as [|l d ls ds Hl _ IH]; [done|].
  cbn [objects]. unfold bind at 1, deref, call. rewrite Hl. simpl.
  unfold bind. by rewrite IH.
Qed.

Lemma body_object_any data w : exists o, body_object data w = (o, w) /\ o <> OutOfFuel.
Proof.
  destruct data as [error|trip_plan|museums]; simpl.
  - by eexists.
  - unfold bind. destruct (objects_any trip_plan w) as (o & -> & Ho).
    destruct o; [by eexists|by eexists|done].
  - unfold bind. destruct (objects_any museums w) as (o & -> & Ho).
    destruct o; [by eexists|by eexists|done].
Qed.

(** The wrapper, run by run: it reads the world that the function left and
    does not change it. *)
Lemma marshal_with_eq fields post w :
  marshal_with field_format fields post w =
  match post w with
  | (Ret (data, code), w1) =>
      match body_object data w1 with
      | (Ret obj, _) =>
          (of_outcome (obind (marshal (output field_format) fields obj)
                             (fun out => Returns (out, code))), w1)
      | (Raise e, _) => (Raise e, w1)
      | (OutOfFuel, _) => (OutOfFuel, w1)
      end
  | (Raise e, w1) => (Raise e, w1)
  | (OutOfFuel, w1) => (OutOfFuel, w1)
  end.
Proof.
  unfold marshal_with. unfold bind at 1.
  destruct (post w) as [[[data code]|e|] w1]; [|done|done].
  unfold bind at 1. destruct (body_object_any data w1) as (o & -> & Ho).
  destruct o as [obj|e|]; [|done|done].
  unfold bind, call. by destruct (marshal _ _ obj).
Qed.

Lemma marshal_with_congr fields post post' w w' :
  post w = post' w' ->
  marshal_with field_format fields post w = marshal_with field_format fields post' w'.
Proof. intros H. by rewrite !marshal_with_eq, H. Qed.

Lemma marshal_with_Raise fields post w e w1 :
  post w = (Raise e, w1) -> marshal_with field_format fields post w = (Raise e, w1).
Proof. intros H. by rewrite marshal_with_eq, H. Qed.

Lemma marshal_with_world fields post w :
  (marshal_with field_format fields post w).2 = (post w).2.
Proof.
  rewrite marshal_with_eq.
  destruct (post w) as [[[data code]|e|] w1]; [|done|done].
  by destruct (body_object data w1) as [[obj|e|] w2].
Qed.

(** An error dict has none of the keys of the output models: under
    [trip_output] it becomes [{"trip_plan": null}], under [museum_output] a
    record of nulls.  The message is gone, the status is kept. *)
Lemma marshal_with_error_plan post w error code w1 :
  post w = (Ret (ErrorBody error, code), w1) ->
  marshal_with field_format trip_output post w = (Ret (null_plan, code), w1).
Proof. intros H. rewrite marshal_with_eq, H. reflexivity. Qed.

Lemma marshal_with_error_museum post w error code w1 :
  post w = (Ret (ErrorBody error, code), w1) ->
  marshal_with field_format museum_output post w = (Ret (null_museum, code), w1).
Proof. intros H. rewrite marshal_with_eq, H. reflexivity. Qed.

(** A trip plan is marshalled record by record, in order. *)
Lemma marshal_plan records :
  marshal (output field_format) trip_output (plan_of records) =
  obind (omap (marshal (output_raw field_format) museum_with_distance_output) records)
        (fun items => Returns (plan_of items)).
Proof.
  unfold plan_of. cbn [marshal trip_output marshal_dict output].
  unfold output_list.
  assert (get_value "trip_plan" (PDict (<["trip_plan" := PList records]> ∅)) =
          PList records) as -> by reflexivity.
  by destruct (omap _ records).
Qed.

End Marshalling.

(** ** The request handlers *)

Section Handlers.
Variable requests_get : list string -> string -> outcome Response.
Variable geodesic : pyobj * pyobj -> pyobj * pyobj -> outcome float.
Variable float_of_str : string -> option float.
Variable int_of_str : string -> option Z.
Variable str_lower : string -> string.
Variable field_format : raw_field -> pyobj -> outcome pyobj.

Local Abbreviation plan_trip_body :=
  (PlanTrip_post_body requests_get geodesic float_of_str int_of_str str_lower).
Local Abbreviation plan_trip :=
  (PlanTrip_post requests_get geodesic float_of_str int_of_str str_lower field_format).
Local Abbreviation resolve :=
  (resolve_start requests_get float_of_str int_of_str str_lower).

Lemma next_by_name_step input museum rest w b :
  name_matches str_lower (heap w) input museum = Some b ->
  next_by_name str_lower input (museum :: rest) w =
  if b then (Ret (Some museum), w) else next_by_name str_lower input rest w.
Proof.
  unfold name_matches. cbn [next_by_name]. unfold bind at 1. rewrite getitem_eq.
  destruct (heap w !! museum) as [d|]; [|done].
  destruct (d !! "name") as [[| | | |name| |]|]; try done.
  intros [= <-]. simpl. unfold bind, call. simpl.
  by destruct (String.eqb _ _).
Qed.

Lemma next_by_name_found input museums w : forall i l,
  museums !! i = Some l ->
  name_matches str_lower (heap w) input l = Some true ->
  (forall j l', (j < i)%nat -> museums !! j = Some l' ->
     name_matches str_lower (heap w) input l' = Some false) ->
  next_by_name str_lower input museums w = (Ret (Some l), w).
Proof.
  induction museums as [|m museums IH]; intros i l Hi Hl Hbefore; [done|].
  destruct i as [|i]; simpl in Hi.
  - inversion Hi; subst. by rewrite (next_by_name_step _ _ _ _ true).
  - rewrite (next_by_name_step _ _ _ _ false) by (by apply (Hbefore 0%nat); [lia|]).
    apply (IH i l Hi Hl). intros j l' Hj Hl'. apply (Hbefore (S j)); [lia|done].
Qed.

Lemma next_by_name_none input museums w :
  (forall l, l ∈ museums -> name_matches str_lower (heap w) input l = Some false) ->
  next_by_name str_lower input museums w = (Ret None, w).
Proof.
  induction museums as [|m museums IH]; intros Hall; [done|].
  rewrite (next_by_name_step _ _ _ _ false) by (apply Hall; by left).
  apply IH. intros l Hl. apply Hall. by right.
Qed.

Lemma truthy_named l d w :
  heap w !! l = Some d -> is_Some (d !! "name") -> truthy l w = (Ret true, w).
Proof.
  unfold truthy, bind, deref, call, ret. intros -> [v Hv]. simpl.
  rewrite bool_decide_eq_false_2; [done|]. intros ->.
  by rewrite lookup_empty in Hv.
Qed.

Lemma name_matches_named h input l b d :
  name_matches str_lower h input l = Some b -> h !! l = Some d ->
  is_Some (d !! "name").
Proof.
  unfold name_matches. intros H Hd. rewrite Hd in H. by destruct (d !! "name").
Qed.

Lemma resolve_current input museums w :
  str_lower input = "current location" ->
  resolve input museums w =
  match get_current_location requests_get float_of_str w with
  | (Ret (lat, lon), w2) =>
      if is_None lat || is_None lon
      then (Ret (inl (ErrorBody "Unable to fetch current location.", 400%Z)), w2)
      else (Ret (inr (Some (mkPoint lat lon))), w2)
  | (Raise e, w2) => (Raise e, w2)
  | (OutOfFuel, w2) => (OutOfFuel, w2)
  end.
Proof.
  intros Hcur. unfold resolve_start. rewrite Hcur. simpl. unfold bind.
  destruct (get_current_location _ _ w) as [[[lat lon]|e|] w2]; try done.
  by destruct (is_None lat || is_None lon).
Qed.

Lemma resolve_by_name input museums w i l d p :
  str_lower input <> "current location" ->
  museums !! i = Some l -> heap w !! l = Some d -> coords d = Some p ->
  name_matches str_lower (heap w) input l = Some true ->
  (forall j l', (j < i)%nat -> museums !! j = Some l' ->
     name_matches str_lower (heap w) input l' = Some false) ->
  resolve input museums w = (Ret (inr (Some p)), w).
Proof.
  intros Hcur Hi Hd Hp Hl Hbefore. unfold resolve_start.
  apply String.eqb_neq in Hcur. rewrite Hcur.
  rewrite (bind_Ret _ _ _ _ _ (next_by_name_found _ _ _ _ _ Hi Hl Hbefore)).
  rewrite (bind_Ret _ _ _ _ _
             (truthy_named _ _ _ Hd (name_matches_named _ _ _ _ _ Hl Hd))).
  by rewrite (bind_Ret _ _ _ _ _ (point_of_ok _ _ _ _ Hd Hp)).
Qed.

Lemma resolve_by_number input museums w :
  str_lower input <> "current location" ->
  (forall l, l ∈ museums -> name_matches str_lower (heap w) input l = Some false) ->
  resolve input museums w = start_from_number int_of_str input museums w.
Proof.
  intros Hcur Hnone. unfold resolve_start.
  apply String.eqb_neq in Hcur. rewrite Hcur.
  by rewrite (bind_Ret _ _ _ _ _ (next_by_name_none _ _ _ Hnone)).
Qed.

Lemma start_from_number_eq input museums w :
  start_from_number int_of_str input museums w =
  match int_of_str input with
  | Some v =>
      if (0 <=? v - 1)%Z && (v - 1 <? Z.of_nat (length museums))%Z then
        match museums !! Z.to_nat (v - 1) with
        | Some chosen =>
            match point_of chosen w with
            | (Ret p, w') => (Ret (inr (Some p)), w')
            | (Raise e, w') =>
                if decide (e = ValueError)
                then (Ret (inl (ErrorBody
                  "Invalid start location input. Please enter a valid number or museum name.",
                  400%Z)), w')
                else (Raise e, w')
            | (OutOfFuel, w') => (OutOfFuel, w')
            end
        | None => (Raise IndexError, w)
        end
      else (Ret (inl (ErrorBody
        "Invalid start location number. Please enter a valid number or museum name.",
        400%Z)), w)
  | None => (Ret (inl (ErrorBody
      "Invalid start location input. Please enter a valid number or museum name.",
      400%Z)), w)
  end.
Proof.
  unfold start_from_number, try_except_only, try_except.
  unfold bind at 1, call at 1.
  destruct (int_of_str input) as [v|]; simpl; [|done].
  destruct ((0 <=? v - 1)%Z && (v - 1 <? Z.of_nat (length museums))%Z); [|done].
  unfold bind at 1, call at 1.
  destruct (museums !! Z.to_nat (v - 1)) as [chosen|]; simpl; [|done].
  unfold bind. destruct (point_of chosen w) as [[p|e|] w']; [done| |done].
  by destruct (decide (e = ValueError)).
Qed.

Lemma plan_trip_after_aggregation cities input w museums w1 :
  fetch_museums_for_cities requests_get cities w = (Ret museums, w1) ->
  museums <> [] ->
  plan_trip_body cities input w =
  match resolve input museums w1 with
  | (Ret (inl early), w2) => (Ret early, w2)
  | (Ret (inr start_location), w2) => run_trip geodesic start_location museums w2
  | (Raise e, w2) => (Raise e, w2)
  | (OutOfFuel, w2) => (OutOfFuel, w2)
  end.
Proof.
  intros Hfetch Hne. unfold PlanTrip_post_body. rewrite (bind_Ret _ _ _ _ _ Hfetch).
  destruct museums as [|m museums]; [done|]. unfold bind.
  by destruct (resolve input (m :: museums) w1) as [[[early|sl]|e|] w2].
Qed.

(** With an empty aggregated list the two functions return at once, with the
    message that no valid museums were found and status 400. *)
Lemma no_museums_body cities input w w1 :
  fetch_museums_for_cities requests_get cities w = (Ret [], w1) ->
  plan_trip_body cities input w =
    (Ret (ErrorBody
       "No valid museums found for the provided cities. Please enter valid city names.",
       400%Z), w1) /\
  ShowMuseums_post_body requests_get cities w =
    (Ret (ErrorBody
       "No valid museums found for the provided cities. Please enter valid city names.",
       400%Z), w1).
Proof.
  intros Hfetch. unfold PlanTrip_post_body, ShowMuseums_post_body.
  by rewrite !(bind_Ret _ _ _ _ _ Hfetch).
Qed.

(** The branches of the start resolution in the function of [PlanTrip.post],
    with the value each of them returns. *)
Lemma start_location_precedence_body cities input w museums w1 :
  fetch_museums_for_cities requests_get cities w = (Ret museums, w1) ->
  museums <> [] ->
  (str_lower input = "current location" ->
   forall lat lon w2,
     get_current_location requests_get float_of_str w1 = (Ret (lat, lon), w2) ->
     plan_trip_body cities input w =
       if is_None lat || is_None lon
       then (Ret (ErrorBody "Unable to fetch current location.", 400%Z), w2)
       else run_trip geodesic (Some (mkPoint lat lon)) museums w2) /\
  (str_lower input <> "current location" ->
   forall i l d p,
     museums !! i = Some l -> heap w1 !! l = Some d -> coords d = Some p ->
     name_matches str_lower (heap w1) input l = Some true ->
     (forall j l', (j < i)%nat -> museums !! j = Some l' ->
        name_matches str_lower (heap w1) input l' = Some false) ->
     plan_trip_body cities input w = run_trip geodesic (Some p) museums w1) /\
  (str_lower input <> "current location" ->
   (forall l, l ∈ museums -> name_matches str_lower (heap w1) input l = Some false) ->
   (forall v l d p,
      int_of_str input = Some v -> (1 <= v <= Z.of_nat (length museums))%Z ->
      museums !! Z.to_nat (v - 1) = Some l ->
      heap w1 !! l = Some d -> coords d = Some p ->
      plan_trip_body cities input w = run_trip geodesic (Some p) museums w1) /\
   (forall v,
      int_of_str input = Some v -> (v < 1 \/ Z.of_nat (length museums) < v)%Z ->
      plan_trip_body cities input w =
        (Ret (ErrorBody
           "Invalid start location number. Please enter a valid number or museum name.",
           400%Z), w1)) /\
   (int_of_str input = None ->
      plan_trip_body cities input w =
        (Ret (ErrorBody
           "Invalid start location input. Please enter a valid number or museum name.",
           400%Z), w1))).
Proof.
  intros Hfetch Hne.
  rewrite (plan_trip_after_aggregation _ _ _ _ _ Hfetch Hne).
  split; [|split].
  - intros Hcur lat lon w2 Hgeo. rewrite (resolve_current _ _ _ Hcur), Hgeo.
    by destruct (is_None lat || is_None lon).
  - intros Hcur i l d p Hi Hd Hp Hl Hbefore.
    by rewrite (resolve_by_name _ _ _ _ _ _ _ Hcur Hi Hd Hp Hl Hbefore).
  - intros Hcur Hnone. rewrite (resolve_by_number _ _ _ Hcur Hnone).
    rewrite start_from_number_eq. split; [|split].
    + intros v l d p -> Hrange Hl Hd Hp.
      assert ((0 <=? v - 1)%Z && (v - 1 <? Z.of_nat (length museums))%Z = true) as ->.
      { apply andb_true_iff. split; [apply Z.leb_le|apply Z.ltb_lt]; lia. }
      by rewrite Hl, (point_of_ok _ _ _ _ Hd Hp).
    + intros v -> Hrange.
      assert ((0 <=? v - 1)%Z && (v - 1 <? Z.of_nat (length museums))%Z = false) as ->.
      { apply andb_false_iff. destruct Hrange; [left; apply Z.leb_gt|right; apply Z.ltb_ge]; lia. }
      done.
    + by intros ->.
Qed.

(** X16. When the aggregated list of museums is empty, both handlers answer
    with status 400 and leave the world as the aggregator left it: no
    geolocation request, no start-location resolution and no run of the trip
    sequencer.  The body of the response is [{"trip_plan": null}] for
    [PlanTrip.post] and a museum record of nulls for [ShowMuseums.post],
    whatever the conversions of the output fields do. *)
Theorem no_museums_response cities input w w1 :
  fetch_museums_for_cities requests_get cities w = (Ret [], w1) ->
  plan_trip cities input w = (Ret (null_plan, 400%Z), w1) /\
  ShowMuseums_post requests_get field_format cities w = (Ret (null_museum, 400%Z), w1).
Proof.
  intros Hfetch.
  destruct (no_museums_body cities input w w1 Hfetch) as [Hplan Hshow].
  split.
  - apply (marshal_with_error_plan _ _ _ _ _ _ Hplan).
  - apply (marshal_with_error_museum _ _ _ _ _ _ Hshow).
Qed.

(** X15. With a non-empty aggregated list [museums], [PlanTrip.post] resolves
    the start location in this order.  (1) If the lowered input is
    ["current location"], the geolocation client is used: status 400 when it
    returns [None], the marshalled trip from its coordinate otherwise.
    (2) Otherwise, if some museum's lowered name equals the lowered input,
    the marshalled trip from the coordinate of the first such museum.
    (3) Otherwise, if the input is an integer [v] with
    [1 <= v <= length museums], the marshalled trip from the coordinate of
    the museum at position [v] counted from 1; if it is an integer out of
    that range, or not an integer, status 400.  Every 400 response has the
    body [{"trip_plan": null}]. *)
Theorem plan_trip_precedence cities input w museums w1 :
  fetch_museums_for_cities requests_get cities w = (Ret museums, w1) ->
  museums <> [] ->
  (str_lower input = "current location" ->
   forall lat lon w2,
     get_current_location requests_get float_of_str w1 = (Ret (lat, lon), w2) ->
     plan_trip cities input w =
       if is_None lat || is_None lon
       then (Ret (null_plan, 400%Z), w2)
       else marshal_with field_format trip_output
              (run_trip geodesic (Some (mkPoint lat lon)) museums) w2) /\
  (str_lower input <> "current location" ->
   forall i l d p,
     museums !! i = Some l -> heap w1 !! l = Some d -> coords d = Some p ->
     name_matches str_lower (heap w1) input l = Some true ->
     (forall j l', (j < i)%nat -> museums !! j = Some l' ->
        name_matches str_lower (heap w1) input l' = Some false) ->
     plan_trip cities input w =
       marshal_with field_format trip_output (run_trip geodesic (Some p) museums) w1) /\
  (str_lower input <> "current location" ->
   (forall l, l ∈ museums -> name_matches str_lower (heap w1) input l = Some false) ->
   (forall v l d p,
      int_of_str input = Some v -> (1 <= v <= Z.of_nat (length museums))%Z ->
      museums !! Z.to_nat (v - 1) = Some l ->
      heap w1 !! l = Some d -> coords d = Some p ->
      plan_trip cities input w =
        marshal_with field_format trip_output (run_trip geodesic (Some p) museums) w1) /\
   (forall v,
      int_of_str input = Some v -> (v < 1 \/ Z.of_nat (length museums) < v)%Z ->
      plan_trip cities input w = (Ret (null_plan, 400%Z), w1)) /\
   (int_of_str input = None ->
      plan_trip cities input w = (Ret (null_plan, 400%Z), w1))).
Proof.
  intros Hfetch Hne.
  destruct (start_location_precedence_body cities input w museums w1 Hfetch Hne)
    as (Hcurrent & Hname & Hnumber).
  unfold PlanTrip_post. split; [|split].
  - intros Hcur lat lon w2 Hgeo. specialize (Hcurrent Hcur lat lon w2 Hgeo).
    destruct (is_None lat || is_None lon).
    + apply (marshal_with_error_plan _ _ _ _ _ _ Hcurrent).
    + by apply marshal_with_congr.
  - intros Hcur i l d p Hi Hd Hp Hl Hbefore.
    apply marshal_with_congr. by apply (Hname Hcur i l d).
  - intros Hcur Hnone. destruct (Hnumber Hcur Hnone) as (Hin & Hout & Hbad).
    split; [|split].
    + intros v l d p Hv Hrange Hl Hd Hp.
      apply marshal_with_congr. by apply (Hin v l d).
    + intros v Hv Hrange. apply (marshal_with_error_plan _ _ _ _ _ _ (Hout v Hv Hrange)).
    + intros Hv. apply (marshal_with_error_plan _ _ _ _ _ _ (Hbad Hv)).
Qed.

End Handlers.

(** C6 (the code departs from it). With cities that all answer 404 the
    aggregated list is empty.  The function of each handler returns the
    message that no valid museums were found with status 400, but the
    [marshal_with] wrapper rebuilds the body from the output model, which has
    no field [error]: the client of [PlanTrip.post] gets
    [{"trip_plan": null}] and the client of [ShowMuseums.post] a museum
    record of nulls, each with status 400 and without the message. *)
Theorem no_museums_message_dropped :
  PlanTrip_post_body Fixture.requests_get Fixture.geodesic Fixture.float_of_str
      Fixture.int_of_str Fixture.str_lower ["Atlantis"] "1" Fixture.w0 =
    (Ret (ErrorBody
       "No valid museums found for the provided cities. Please enter valid city names.",
       400%Z), World ∅ [museum_url "Atlantis"]) /\
  PlanTrip_post Fixture.requests_get Fixture.geodesic Fixture.float_of_str
      Fixture.int_of_str Fixture.str_lower Fixture.field_format
      ["Atlantis"] "1" Fixture.w0 =
    (Ret (null_plan, 400%Z), World ∅ [museum_url "Atlantis"]) /\
  ShowMuseums_post_body Fixture.requests_get ["Atlantis"] Fixture.w0 =
    (Ret (ErrorBody
       "No valid museums found for the provided cities. Please enter valid city names.",
       400%Z), World ∅ [museum_url "Atlantis"]) /\
  ShowMuseums_post Fixture.requests_get Fixture.field_format ["Atlantis"] Fixture.w0 =
    (Ret (null_museum, 400%Z), World ∅ [museum_url "Atlantis"]).
Proof. repeat split; vm_compute; reflexivity. Qed.

(** C4 (the code departs from it). On the museums of Cairo and Giza, a number
    out of range, an input that is neither a name nor a number, and a
    geolocation that fails make the function of [PlanTrip.post] return three
    different messages with status 400; the [marshal_with] wrapper turns each
    of them into the same body [{"trip_plan": null}], so that no descriptive
    message reaches the client. *)
Theorem start_location_messages_dropped :
  (PlanTrip_post_body Fixture.requests_get Fixture.geodesic Fixture.float_of_str
     Fixture.int_of_str Fixture.str_lower ["Cairo"; "Giza"] "4" Fixture.w0).1 =
    Ret (ErrorBody
      "Invalid start location number. Please enter a valid number or museum name.",
      400%Z) /\
  (PlanTrip_post Fixture.requests_get Fixture.geodesic Fixture.float_of_str
     Fixture.int_of_str Fixture.str_lower Fixture.field_format
     ["Cairo"; "Giza"] "4" Fixture.w0).1 =
    Ret (null_plan, 400%Z) /\
  (PlanTrip_post_body Fixture.requests_get Fixture.geodesic Fixture.float_of_str
     Fixture.int_of_str Fixture.str_lower ["Cairo"; "Giza"] "the louvre" Fixture.w0).1 =
    Ret (ErrorBody
      "Invalid start location input. Please enter a valid number or museum name.",
      400%Z) /\
  (PlanTrip_post Fixture.requests_get Fixture.geodesic Fixture.float_of_str
     Fixture.int_of_str Fixture.str_lower Fixture.field_format
     ["Cairo"; "Giza"] "the louvre" Fixture.w0).1 =
    Ret (null_plan, 400%Z) /\
  (PlanTrip_post_body Fixture.requests_get_noloc Fixture.geodesic Fixture.float_of_str
     Fixture.int_of_str Fixture.str_lower ["Cairo"; "Giza"] "current location"
     Fixture.w0).1 =
    Ret (ErrorBody "Unable to fetch current location.", 400%Z) /\
  (PlanTrip_post Fixture.requests_get_noloc Fixture.geodesic Fixture.float_of_str
     Fixture.int_of_str Fixture.str_lower Fixture.field_format
     ["Cairo"; "Giza"] "current location" Fixture.w0).1 =
    Ret (null_plan, 400%Z).
Proof. repeat split; vm_compute; reflexivity. Qed.

Lemma no_museums_response_witness :
  PlanTrip_post Fixture.requests_get Fixture.geodesic Fixture.float_of_str
      Fixture.int_of_str Fixture.str_lower Fixture.field_format
      ["Atlantis"] "current location" Fixture.w0 =
    (Ret (null_plan, 400%Z), World ∅ [museum_url "Atlantis"]) /\
  ShowMuseums_post Fixture.requests_get Fixture.field_format ["Atlantis"] Fixture.w0 =
    (Ret (null_museum, 400%Z), World ∅ [museum_url "Atlantis"]).
Proof.
  apply (no_museums_response Fixture.requests_get Fixture.geodesic Fixture.float_of_str
           Fixture.int_of_str Fixture.str_lower Fixture.field_format
           ["Atlantis"] "current location" Fixture.w0
           (World ∅ [museum_url "Atlantis"])).
  vm_compute; reflexivity.
Defined.

Lemma plan_trip_precedence_witness :
  PlanTrip_post Fixture.requests_get Fixture.geodesic Fixture.float_of_str
    Fixture.int_of_str Fixture.str_lower Fixture.field_format
    ["Cairo"; "Giza"] "2" Fixture.w0 =
  marshal_with Fixture.field_format trip_output
    (run_trip Fixture.geodesic (Some Fixture.start) [0; 1; 2]%nat)
    (fetch_museums_for_cities Fixture.requests_get ["Cairo"; "Giza"] Fixture.w0).2.
Proof.
  apply (proj1 (proj2 (proj2
    (plan_trip_precedence Fixture.requests_get Fixture.geodesic Fixture.float_of_str
       Fixture.int_of_str Fixture.str_lower Fixture.field_format
       ["Cairo"; "Giza"] "2" Fixture.w0 [0; 1; 2]%nat
       (fetch_museums_for_cities Fixture.requests_get ["Cairo"; "Giza"] Fixture.w0).2
       ltac:(vm_compute; reflexivity) ltac:(discriminate)))
    ltac:(intros H; vm_compute in H; discriminate H)
    ltac:(intros l Hl; rewrite !elem_of_cons, elem_of_nil in Hl;
          destruct Hl as [->|[->|[->|[]]]]; vm_compute; reflexivity))
    2%Z 1%nat (Fixture.record "Coptic Museum" "Cairo" 29.5 31) Fixture.start).
  - vm_compute; reflexivity.
  - simpl; lia.
  - vm_compute; reflexivity.
  - vm_compute; reflexivity.
  - vm_compute; reflexivity.
Defined.

(** The function of the handler on the fixture: the three ways to name the
    start, and the three ways to fail. *)
Example plan_trip_body_runs :
  let plan_trip input :=
    (PlanTrip_post_body Fixture.requests_get Fixture.geodesic Fixture.float_of_str
       Fixture.int_of_str Fixture.str_lower ["Cairo"; "Giza"] input Fixture.w0).1 in
  plan_trip "Current Location" = Ret (TripPlanBody [0; 1; 2]%nat, 200%Z) /\
  plan_trip "coptic museum" = Ret (TripPlanBody [1; 0; 2]%nat, 200%Z) /\
  plan_trip "3" = Ret (TripPlanBody [2; 1; 0]%nat, 200%Z) /\
  plan_trip "4" =
    Ret (ErrorBody
      "Invalid start location number. Please enter a valid number or museum name.",
      400%Z) /\
  plan_trip "0" =
    Ret (ErrorBody
      "Invalid start location number. Please enter a valid number or museum name.",
      400%Z) /\
  plan_trip "the louvre" =
    Ret (ErrorBody
      "Invalid start location input. Please enter a valid number or museum name.",
      400%Z) /\
  (PlanTrip_post_body Fixture.requests_get_noloc Fixture.geodesic Fixture.float_of_str
     Fixture.int_of_str Fixture.str_lower ["Cairo"; "Giza"] "current location"
     Fixture.w0).1 =
    Ret (ErrorBody "Unable to fetch current location.", 400%Z).
Proof. repeat split; vm_compute; reflexivity. Qed.

(** The response of the handler for a trip that starts at the third museum:
    the records in the order of the tour, each projected on the fields of the
    output model, with the distance of its leg; the field [imageUrl], which
    the upstream records of the fixture lack, is null. *)
Example plan_trip_runs :
  let stop (name city : string) (lat lon distance : float) : pyobj :=
    PDict (<["name" := PStr name]> (<["latitude" := PFloat lat]>
          (<["longitude" := PFloat lon]> (<["city" := PStr city]>
          (<["imageUrl" := PNone]> (<["distance" := PFloat distance]> ∅)))))) in
  (PlanTrip_post Fixture.requests_get Fixture.geodesic Fixture.float_of_str
     Fixture.int_of_str Fixture.str_lower Fixture.field_format
     ["Cairo"; "Giza"] "3" Fixture.w0).1 =
  Ret (plan_of [ stop "Grand Egyptian Museum" "Giza" 29.5%float 30%float 0%float;
                 stop "Coptic Museum" "Cairo" 29.5%float 31%float 1%float;
                 stop "Egyptian Museum" "Cairo" 30%float 31%float 0.5%float ], 200%Z).
Proof. vm_compute. reflexivity. Qed.

(** ** Further properties of the trip sequencer *)

Section SequencerMore.
Variable geodesic : pyobj * pyobj -> pyobj * pyobj -> outcome float.

Lemma km_same_but_distance h h' p l :
  same_but_distance h h' -> km geodesic h' p l = km geodesic h p l.
Proof.
  intros Hsame. unfold km.
  destruct (Hsame l) as [->|(r & d & -> & ->)]; [done|].
  by rewrite coords_insert_distance.
Qed.

Lemma coords_at_same_but_distance h h' l :
  same_but_distance h h' -> coords_at h' l = coords_at h l.
Proof.
  intros Hsame. unfold coords_at.
  destruct (Hsame l) as [->|(r & d & -> & ->)]; [done|].
  by rewrite coords_insert_distance.
Qed.

Lemma nearest_tour_same_but_distance h h' trip : forall cur,
  same_but_distance h h' ->
  nearest_tour geodesic h' cur trip -> nearest_tour geodesic h cur trip.
Proof.
  induction trip as [|l rest IH]; intros cur Hsame; simpl; [done|].
  intros (d & p & Hkm & Hle & Hp & Htour).
  exists d, p. rewrite (km_same_but_distance _ _ _ _ Hsame) in Hkm.
  rewrite (coords_at_same_but_distance _ _ _ Hsame) in Hp.
  split; [done|]. split; [|split; [done|by apply IH]].
  intros l' Hl'. destruct (Hle l' Hl') as (d' & Hd' & Hdd').
  exists d'. by rewrite (km_same_but_distance _ _ _ _ Hsame) in Hd'.
Qed.

(** The loop again, with what it records: the plan is a nearest-neighbour
    tour, and when no object occurs twice in the working list, each record ends
    with the length of its leg in [distance]. *)
Lemma a_star_loop_tour fuel : forall cur museums trip w,
  (length museums <= fuel)%nat ->
  reach_inv geodesic (heap w) cur museums ->
  exists out w',
    a_star_loop geodesic fuel cur museums trip w = (Ret (trip ++ out, []), w') /\
    nearest_tour geodesic (heap w) cur out /\
    (NoDup museums -> legs_recorded geodesic (heap w') cur out).
Proof.
  induction fuel as [|fuel IH]; intros cur museums trip w Hlen Hinv.
  - destruct museums as [|m museums]; [|simpl in Hlen; lia].
    exists [], w. by rewrite app_nil_r.
  - destruct museums as [|m museums].
    { exists [], w. by rewrite app_nil_r. }
    remember (m :: museums) as ms eqn:Hms.
    assert (Hne : ms <> []) by (by subst).
    destruct (a_star_step_spec geodesic cur ms trip w Hne (proj1 Hinv))
      as (i & l & r & d & p & Hi & Hr & Hp & Hkm & Hle & Hlt & Hstep).
    set (h1 := <[l := <["distance" := PFloat d]> r]> (heap w)) in *.
    set (w1 := set_heap h1 w) in *.
    assert (Hlen' : (length (delete i ms) <= fuel)%nat).
    { rewrite length_delete by (by rewrite Hi). lia. }
    pose proof (reach_inv_step geodesic _ _ _ _ _ _ _ (PFloat d) Hinv Hi Hr Hp) as Hinv'.
    destruct (IH p (delete i ms) (trip ++ [l]) w1 Hlen' Hinv')
      as (out & w' & Hrun & Htour & Hlegs).
    destruct (a_star_loop_spec geodesic fuel p (delete i ms) (trip ++ [l]) w1 Hlen' Hinv')
      as (out2 & w2 & Hrun2 & Hperm & _ & Hout & Hin).
    rewrite Hrun in Hrun2. injection Hrun2 as Heq <-.
    apply app_inv_head in Heq as <-.
    assert (Hpm : Permutation ms (l :: delete i ms)) by (by apply delete_Permutation).
    assert (Hsame1 : same_but_distance (heap w) h1)
      by (by apply same_but_distance_insert).
    exists (l :: out), w'. split; [|split].
    + rewrite Hms at 1. simpl. rewrite <- Hms.
      rewrite (bind_Ret _ _ _ _ _ Hstep). rewrite Hrun.
      by rewrite <- app_assoc.
    + simpl. exists d, p. split; [done|]. split; [|split].
      * intros l' Hl'. apply Hle. rewrite Hpm, elem_of_cons. right. by rewrite <- Hperm.
      * unfold coords_at. by rewrite Hr.
      * by apply (nearest_tour_same_but_distance _ h1).
    + intros Hnd. rewrite Hpm in Hnd. apply NoDup_cons in Hnd as [Hl Hnd].
      simpl. exists d, (<["distance" := PFloat d]> r), p.
      assert (Hsame2 : same_but_distance h1 (heap w')).
      { intros x. destruct (decide (x ∈ delete i ms)) as [Hx|Hx].
        - right. destruct (Hin x Hx) as (rx & dx & Hrx & Hrx'). by exists rx, dx.
        - left. by apply Hout. }
      split; [|split; [|split; [|split]]].
      * rewrite (km_same_but_distance _ _ _ _ Hsame2).
        by rewrite (km_same_but_distance _ _ _ _ Hsame1).
      * rewrite (Hout l Hl). unfold w1, h1. simpl. by rewrite lookup_insert_eq.
      * by rewrite lookup_insert_eq.
      * by rewrite coords_insert_distance.
      * by apply Hlegs.
Qed.

(** X1. The loop of [a_star_search] always ends, whatever the list and the
    heap hold: after at most [length museums] iterations the search has
    returned or raised. *)
Theorem a_star_search_halts start museums w :
  exists w',
    (exists trip_plan rest,
       a_star_search geodesic start museums w = (Ret (trip_plan, rest), w')) \/
    (exists e, a_star_search geodesic start museums w = (Raise e, w')).
Proof.
  unfold a_star_search.
  destruct (a_star_loop_any geodesic (length museums) start museums [] w)
    as (o & w' & Hrun & _ & _ & Hfuel & _).
  exists w'. rewrite Hrun. destruct o as [[t r]|e|].
  - left. by exists t, r.
  - right. by exists e.
  - by destruct (Hfuel (le_n _)).
Qed.

(** X2. When every distance the loop may ask for is defined, the plan that
    [a_star_search] returns is a nearest-neighbour tour from the start: each
    stop is at most as far from the previous stop as every later stop of the
    plan. *)
Theorem a_star_search_nearest_neighbour start museums w :
  route_ok geodesic (heap w) start museums = true ->
  exists trip_plan w',
    a_star_search geodesic start museums w = (Ret (trip_plan, []), w') /\
    nearest_tour geodesic (heap w) start trip_plan.
Proof.
  intros Hok%route_ok_reach_inv.
  destruct (a_star_loop_tour (length museums) start museums [] w (le_n _) Hok)
    as (out & w' & Hrun & Htour & _).
  by exists out, w'.
Qed.

(** X3. When moreover no object occurs twice in the list, each record of the
    plan ends with, in its [distance] field, the distance from the previous
    stop of the plan, and the first record with the distance from the
    start. *)
Theorem a_star_search_records_legs start museums w :
  route_ok geodesic (heap w) start museums = true ->
  NoDup museums ->
  exists trip_plan w',
    a_star_search geodesic start museums w = (Ret (trip_plan, []), w') /\
    legs_recorded geodesic (heap w') start trip_plan.
Proof.
  intros Hok%route_ok_reach_inv Hnd.
  destruct (a_star_loop_tour (length museums) start museums [] w (le_n _) Hok)
    as (out & w' & Hrun & _ & Hlegs).
  exists out, w'. split; [done|by apply Hlegs].
Qed.

Lemma min_from_raises {A} (key : A -> M float) w x e post : forall pre best bk,
  (forall a, a ∈ pre -> exists v, key a w = (Ret v, w)) ->
  key x w = (Raise e, w) ->
  min_from key best bk (pre ++ x :: post) w = (Raise e, w).
Proof.
  induction pre as [|a pre IH]; intros best bk Hpre Hx; simpl.
  - unfold bind. by rewrite Hx.
  - destruct (Hpre a) as [v Hv]; [by left|].
    rewrite (bind_Ret _ _ _ _ _ Hv).
    assert (Hpre' : forall a', a' ∈ pre -> exists v', key a' w = (Ret v', w)).
    { intros a' Ha'. apply Hpre. by right. }
    destruct (v <? bk)%float; by apply IH.
Qed.

Lemma py_min_raises {A} (key : A -> M float) w x e pre post :
  (forall a, a ∈ pre -> exists v, key a w = (Ret v, w)) ->
  key x w = (Raise e, w) ->
  py_min key (pre ++ x :: post) w = (Raise e, w).
Proof.
  intros Hpre Hx. destruct pre as [|a pre]; simpl.
  - unfold bind. by rewrite Hx.
  - destruct (Hpre a) as [v Hv]; [by left|].
    rewrite (bind_Ret _ _ _ _ _ Hv). apply min_from_raises; [|done].
    intros a' Ha'. apply Hpre. by right.
Qed.

Lemma a_star_search_raises start pre l post w e :
  in_reach geodesic (heap w) start pre = true ->
  distance_from geodesic start l w = (Raise e, w) ->
  a_star_search geodesic start (pre ++ l :: post) w = (Raise e, w).
Proof.
  intros Hpre Hl. rewrite in_reach_spec in Hpre.
  assert (Hmin : py_min (distance_from geodesic start) (pre ++ l :: post) w = (Raise e, w)).
  { apply py_min_raises; [|done]. intros a Ha.
    destruct (Hpre a Ha) as [v Hv]. exists v.
    by apply (distance_from_ok geodesic). }
  unfold a_star_search. rewrite length_app. simpl. rewrite Nat.add_comm. simpl.
  destruct (pre ++ l :: post) as [|m ms] eqn:Hms; [by destruct pre|].
  cbn [a_star_loop]. unfold a_star_step, bind. by rewrite Hmin.
Qed.

(** X4. A record without [latitude] or without [longitude] anywhere in the
    list makes [a_star_search] raise [KeyError] in its first iteration, while
    [min] computes the keys, before any record is modified and before the
    list is changed (the records before it having their distances
    defined). *)
Theorem a_star_search_missing_coordinate start pre l post w r :
  in_reach geodesic (heap w) start pre = true ->
  heap w !! l = Some r ->
  r !! "latitude" = None \/ r !! "longitude" = None ->
  a_star_search geodesic start (pre ++ l :: post) w = (Raise KeyError, w).
Proof.
  intros Hpre Hr Hmiss. apply a_star_search_raises; [done|].
  unfold distance_from, bind. rewrite point_of_eq, Hr.
  destruct Hmiss as [Hlat|Hlon].
  - by rewrite Hlat.
  - destruct (r !! "latitude"); [|done]. by rewrite Hlon.
Qed.

(** X5. An exception that [geodesic] raises for the distance from the start
    to some record of the list (a coordinate it rejects) comes out of
    [a_star_search] as it is, again before any record is modified. *)
Theorem a_star_search_geodesic_raises start pre l post w r q e :
  in_reach geodesic (heap w) start pre = true ->
  heap w !! l = Some r -> coords r = Some q ->
  heuristic geodesic start q = Raises e ->
  a_star_search geodesic start (pre ++ l :: post) w = (Raise e, w).
Proof.
  intros Hpre Hr Hq Hgeo. apply a_star_search_raises; [done|].
  unfold distance_from.
  rewrite (bind_Ret _ _ _ _ _ (point_of_ok _ _ _ _ Hr Hq)).
  unfold call. by rewrite Hgeo.
Qed.

End SequencerMore.

(** ** Further properties of the geolocation client *)

Section GeolocationMore.
Variable requests_get : list string -> string -> outcome Response.
Variable float_of_str : string -> option float.

Lemma split_on_no_sep sep s : has_char sep s = false -> split_on sep s = [s].
Proof.
  induction s as [|c s IH]; simpl; [done|].
  intros [Hc Hs]%orb_false_iff. rewrite Hc. by rewrite (IH Hs).
Qed.

Lemma split_on_app sep a b :
  has_char sep a = false ->
  split_on sep (String.append a (String sep b)) = a :: split_on sep b.
Proof.
  induction a as [|c a IH]; simpl.
  - intros _. by rewrite Ascii.eqb_refl.
  - intros [Hc Ha]%orb_false_iff. rewrite Hc. by rewrite (IH Ha).
Qed.

(** X6. When the provider answers with a JSON object whose [loc] field is
    [a,b], with no other comma, and [float()] reads [x] from [a] and [y] from
    [b], [get_current_location] returns [(x, y)].  The status code of the
    answer and the other fields of the object play no part. *)
Theorem get_current_location_parses w resp d a b x y :
  requests_get (requests w) "https://ipinfo.io" = Returns resp ->
  json resp = Returns (PDict d) ->
  d !! "loc" = Some (PStr (String.append a (String "," b))) ->
  has_char "," a = false -> has_char "," b = false ->
  float_of_str a = Some x -> float_of_str b = Some y ->
  get_current_location requests_get float_of_str w =
    (Ret (PFloat x, PFloat y), after_geolocation w).
Proof.
  intros Hreq Hjson Hloc Ha Hb Hx Hy.
  rewrite get_current_location_eq, Hreq. unfold parse_location.
  rewrite Hjson. cbn [py_contains py_getitem]. unfold dict_getitem.
  rewrite Hloc, bool_decide_eq_true_2 by done. cbn [of_option py_split].
  rewrite (split_on_app _ _ _ Ha), (split_on_no_sep _ _ Hb).
  by rewrite Hx, Hy.
Qed.

End GeolocationMore.

(** ** Further properties of the museum data client and the aggregator *)

Section AggregatorMore.
Variable requests_get : list string -> string -> outcome Response.
Variable field_format : raw_field -> pyobj -> outcome pyobj.

Lemma strip_id_lookup (d : dict) key :
  strip_id d !! key = if decide (key = "id") then None else d !! key.
Proof.
  unfold strip_id. destruct (decide (key = "id")) as [->|Hne].
  - apply map_lookup_filter_None. right. intros x _. simpl. by intros H.
  - destruct (d !! key) as [v|] eqn:Hv.
    + by apply map_lookup_filter_Some.
    + apply map_lookup_filter_None. by left.
Qed.

Lemma clean_museum_data_AttributeError items : forall w,
  dicts_of items = None ->
  exists w', clean_museum_data items w = (Raise AttributeError, w') /\
             requests w' = requests w.
Proof.
  induction items as [|x items IH]; intros w; simpl; [done|].
  destruct x; try by (intros _; eexists).
  destruct (dicts_of items) as [ds|]; [done|]. intros _.
  unfold bind at 1, alloc at 1.
  set (w2 := set_heap _ w).
  destruct (IH w2 eq_refl) as (w' & Hrun & Hreq).
  exists w'. unfold bind. by rewrite Hrun.
Qed.

(** X7. On a 200 answer whose body is a JSON array of objects,
    [fetch_museum_data] returns the dict of the queried city with one new
    dict object per element, in order, pairwise distinct and distinct from
    every object that existed; each has no [id] and, for every other key, the
    value of the upstream element.  One request was made and no older object
    is touched. *)
Theorem fetch_museum_data_records city w resp ds :
  requests_get (requests w) (museum_url city) = Returns resp ->
  status_code resp = 200%Z ->
  json resp = Returns (PList (PDict <$> ds)) ->
  exists ls w',
    fetch_museum_data requests_get city w = (Ret (Some (mkMuseumsDict city ls)), w') /\
    requests w' = requests w ++ [museum_url city] /\
    length ls = length ds /\ NoDup ls /\
    (forall l, l ∈ ls -> heap w !! l = None) /\
    (forall l, is_Some (heap w !! l) -> heap w' !! l = heap w !! l) /\
    (forall i l d, ls !! i = Some l -> ds !! i = Some d ->
       exists r, heap w' !! l = Some r /\ r !! "id" = None /\
                 forall key, key <> "id" -> r !! key = d !! key).
Proof.
  intros Hreq Hstatus Hjson.
  rewrite fetch_museum_data_eq, Hreq, Hstatus, Hjson. simpl.
  destruct (clean_museum_data_spec ds
              (World (heap w) (requests w ++ [museum_url city])))
    as (ls & w' & Hrun & Hreq' & Hnd & Hfresh & Hkeep & Hall).
  exists ls, w'. unfold bind. rewrite Hrun. split; [done|].
  split; [done|]. split; [by eapply Forall2_length|].
  do 3 (split; [done|]).
  intros i l d Hl Hd.
  apply Forall2_same_length_lookup in Hall as [_ Hall].
  exists (strip_id d). split; [by apply (Hall i)|].
  split; [by rewrite strip_id_lookup|].
  intros key Hkey. rewrite strip_id_lookup. by destruct (decide (key = "id")).
Qed.

Lemma dicts_of_keys (d : dict) : d <> ∅ -> dicts_of (PStr <$> (map_to_list d).*1) = None.
Proof.
  intros Hne. destruct (map_to_list d) as [|[k v] kvs] eqn:Hkvs; [|done].
  by apply map_to_list_empty_iff in Hkvs.
Qed.

(** X8. On a 200 answer whose body is JSON but not an array of objects,
    [fetch_museum_data] does not give the absence signal.  It raises
    [TypeError] when the body cannot be iterated (null, a boolean, a number),
    and [AttributeError] when an element the iteration yields is not an
    object (an array with another value in it, the keys of a non-empty
    object, the characters of a non-empty string).  An empty object and an
    empty string count as an empty array: the client returns a dict with no
    record. *)
Theorem fetch_museum_data_bad_body city w resp data :
  requests_get (requests w) (museum_url city) = Returns resp ->
  status_code resp = 200%Z ->
  json resp = Returns data ->
  let w1 := World (heap w) (requests w ++ [museum_url city]) in
  ((data = PNone \/ (exists b, data = PBool b) \/ (exists z, data = PInt z) \/
    (exists f, data = PFloat f)) ->
   fetch_museum_data requests_get city w = (Raise TypeError, w1)) /\
  (((exists items, data = PList items /\ dicts_of items = None) \/
    (exists d, data = PDict d /\ d <> ∅) \/
    (exists c s, data = PStr (String c s))) ->
   exists w', fetch_museum_data requests_get city w = (Raise AttributeError, w') /\
              requests w' = requests w1) /\
  ((data = PList [] \/ data = PDict ∅ \/ data = PStr EmptyString) ->
   fetch_museum_data requests_get city w = (Ret (Some (mkMuseumsDict city [])), w1)).
Proof.
  intros Hreq Hstatus Hjson w1.
  rewrite fetch_museum_data_eq, Hreq, Hstatus, Hjson. fold w1. cbn beta iota.
  split; [|split].
  - by intros [->|[[b -> ]|[[z -> ]|[f -> ]]]].
  - intros Hbad.
    assert (exists items, py_iter data = Returns items /\ dicts_of items = None)
      as (items & -> & Hitems).
    { destruct Hbad as [(items & -> & H)|[(d & -> & H)|(c & s' & ->)]].
      - by exists items.
      - eexists. split; [done|]. by apply dicts_of_keys.
      - by eexists. }
    destruct (clean_museum_data_AttributeError items w1 Hitems) as (w' & Hrun & Hreq').
    exists w'. unfold bind. by rewrite Hrun.
  - by intros [->|[->| -> ]].
Qed.

Lemma fetch_museums_loop_app pre : forall post all_museums w,
  fetch_museums_loop requests_get (pre ++ post) all_museums w =
  match fetch_museums_loop requests_get pre all_museums w with
  | (Ret all_museums', w1) => fetch_museums_loop requests_get post all_museums' w1
  | (Raise e, w1) => (Raise e, w1)
  | (OutOfFuel, w1) => (OutOfFuel, w1)
  end.
Proof.
  induction pre as [|city pre IH]; intros post acc w; [done|].
  simpl. unfold bind.
  destruct (fetch_museum_data requests_get city w) as [[[md|]|e|] w1]; try done.
  by destruct (set_city (md_data md) city w1) as [[[]|e|] w2].
Qed.

(** X9. A request that raises aborts the aggregation.  When the requests of
    the cities before [city] go through and the request of [city] raises [e],
    [fetch_museums_for_cities] raises [e]: the records already fetched are
    not returned, and the cities after [city] are never requested. *)
Theorem fetch_museums_for_cities_aborts pre city post w e :
  upstream_ok requests_get (requests w) pre = true ->
  requests_get (requests w ++ (museum_url <$> pre)) (museum_url city) = Raises e ->
  exists w',
    fetch_museums_for_cities requests_get (pre ++ city :: post) w = (Raise e, w') /\
    requests w' = requests w ++ (museum_url <$> pre) ++ [museum_url city].
Proof.
  intros Hok Hraise. unfold fetch_museums_for_cities.
  rewrite fetch_museums_loop_app.
  destruct (fetch_museums_loop_spec requests_get pre [] w Hok)
    as (ms & w1 & -> & Hreq & _).
  rewrite <- Hreq in Hraise. cbn [fetch_museums_loop].
  unfold bind. rewrite (fetch_museum_data_propagates _ _ _ _ Hraise).
  eexists. split; [done|]. simpl. by rewrite Hreq, <- app_assoc.
Qed.

(** X10. [ShowMuseums.post], when no call of the client raises.  When the
    specification of the aggregation gives no record, the response is a
    museum record of nulls with status 400.  Otherwise it is the list of
    these records, in their order, each marshalled against [museum_output],
    with status 200; a conversion of an output field that raises makes the
    handler raise. *)
Theorem show_museums_response cities w :
  upstream_ok requests_get (requests w) cities = true ->
  exists w',
    requests w' = requests w ++ (museum_url <$> cities) /\
    ShowMuseums_post requests_get field_format cities w =
      (if bool_decide (aggregate_spec requests_get (requests w) cities = [])
       then Ret (null_museum, 400%Z)
       else of_outcome
              (obind (omap (marshal (output field_format) museum_output)
                        (PDict <$> aggregate_spec requests_get (requests w) cities))
                     (fun items => Returns (PList items, 200%Z))), w').
Proof.
  intros Hok.
  destruct (fetch_museums_loop_spec requests_get cities [] w Hok)
    as (ms & w' & Hrun & Hreq & Hall & _).
  exists w'. split; [done|].
  assert (Hbody : ShowMuseums_post_body requests_get cities w =
    (match ms with [] => Ret no_museums_error | _ :: _ => Ret (MuseumsBody ms, 200%Z) end, w')).
  { unfold ShowMuseums_post_body, fetch_museums_for_cities.
    rewrite (bind_Ret _ _ _ _ _ Hrun). by destruct ms. }
  unfold ShowMuseums_post. rewrite marshal_with_eq, Hbody.
  assert (Hobjs : objects ms w' =
    (Ret (PDict <$> aggregate_spec requests_get (requests w) cities), w'))
    by (by apply objects_spec).
  simpl in Hall. destruct Hall as [|l d ms' ds Hl Hall]; [done|].
  rewrite bool_decide_eq_false_2 by done.
  cbn [body_object]. unfold bind. rewrite Hobjs. unfold ret.
  cbn [marshal].
  by destruct (omap _ (PDict <$> d :: ds)).
Qed.

End AggregatorMore.

(** ** Further properties of the request handlers *)

Section HandlersMore.
Variable requests_get : list string -> string -> outcome Response.
Variable geodesic : pyobj * pyobj -> pyobj * pyobj -> outcome float.
Variable float_of_str : string -> option float.
Variable int_of_str : string -> option Z.
Variable str_lower : string -> string.
Variable field_format : raw_field -> pyobj -> outcome pyobj.

Local Abbreviation plan_trip_body :=
  (PlanTrip_post_body requests_get geodesic float_of_str int_of_str str_lower).
Local Abbreviation plan_trip :=
  (PlanTrip_post requests_get geodesic float_of_str int_of_str str_lower field_format).
Local Abbreviation resolve :=
  (resolve_start requests_get float_of_str int_of_str str_lower).

Lemma next_by_name_any input museums w :
  exists o, next_by_name str_lower input museums w = (o, w) /\ o <> OutOfFuel.
Proof.
  induction museums as [|m museums IH]; [by eexists|].
  cbn [next_by_name]. unfold bind at 1. rewrite getitem_eq.
  destruct (heap w !! m) as [d|]; [|by eexists].
  destruct (d !! "name") as [name|]; [|by eexists]. simpl.
  unfold bind, call.
  destruct (py_lower str_lower name) as [lowered|e]; simpl; [|by eexists].
  destruct (String.eqb _ _); [by eexists|done].
Qed.

Lemma truthy_any l w : exists o, truthy l w = (o, w) /\ o <> OutOfFuel.
Proof.
  unfold truthy, bind, deref, call, ret.
  destruct (heap w !! l); by eexists.
Qed.

(** What the start resolution can come back with. *)
Lemma resolve_start_any input museums w :
  exists o w',
    resolve input museums w = (o, w') /\
    heap w' = heap w /\
    requests w' = requests w ++
      (if String.eqb (str_lower input) "current location"
       then ["https://ipinfo.io"] else []) /\
    match o with
    | Ret (inl (b, st)) =>
        st = 400%Z /\ exists msg, b = ErrorBody msg /\ msg ∈ plan_trip_errors
    | Ret (inr start_location) => is_Some start_location
    | Raise _ => True
    | OutOfFuel => False
    end.
Proof.
  assert (Herr : forall msg, msg ∈ plan_trip_errors ->
    (400 = 400)%Z /\ exists msg', ErrorBody msg = ErrorBody msg' /\ msg' ∈ plan_trip_errors).
  { intros msg Hmsg. split; [done|]. by exists msg. }
  assert (Hnum : exists o,
    start_from_number int_of_str input museums w = (o, w) /\
    match o with
    | Ret (inl (b, st)) =>
        st = 400%Z /\ exists msg, b = ErrorBody msg /\ msg ∈ plan_trip_errors
    | Ret (inr start_location) => is_Some start_location
    | Raise _ => True
    | OutOfFuel => False
    end).
  { rewrite start_from_number_eq.
    destruct (int_of_str input) as [v|].
    2: { eexists. split; [reflexivity|]. apply Herr. unfold plan_trip_errors. rewrite !elem_of_cons. auto 10. }
    destruct (_ && _).
    2: { eexists. split; [reflexivity|]. apply Herr. unfold plan_trip_errors. rewrite !elem_of_cons. auto 10. }
    destruct (museums !! Z.to_nat (v - 1)) as [chosen|];
      [|eexists; split; [reflexivity|done]].
    rewrite point_of_eq.
    destruct (heap w !! chosen) as [d|]; [|eexists; split; [reflexivity|done]].
    destruct (d !! "latitude"); [|eexists; split; [reflexivity|done]].
    destruct (d !! "longitude"); eexists; (split; [reflexivity|]); simpl; eauto. }
  unfold resolve_start.
  destruct (String.eqb (str_lower input) "current location") eqn:Hcur.
  - unfold bind. rewrite get_current_location_eq.
    destruct (parse_location _ _) as [[x y]|]; simpl.
    + eexists _, _. split; [reflexivity|]. split; [done|]. split; [done|]. simpl. eauto.
    + eexists _, _. split; [reflexivity|]. split; [done|]. split; [done|].
      apply Herr. unfold plan_trip_errors. rewrite !elem_of_cons. auto 10.
  - rewrite app_nil_r. unfold bind at 1.
    destruct (next_by_name_any input museums w) as (o1 & -> & Ho1).
    destruct o1 as [[chosen|]|e|]; [| |by eexists _, _|done].
    + unfold bind at 1.
      destruct (truthy_any chosen w) as (o2 & -> & Ho2).
      destruct o2 as [[|]|e|]; [| |by eexists _, _|done].
      * unfold bind. rewrite point_of_eq.
        destruct (heap w !! chosen) as [d|]; [|by eexists _, _].
        destruct (d !! "latitude"); [|by eexists _, _].
        destruct (d !! "longitude"); [|by eexists _, _].
        eexists _, _. split; [reflexivity|]. split; [done|]. split; [done|].
        simpl. eauto.
      * destruct Hnum as (o & -> & Ho). by exists o, w.
    + destruct Hnum as (o & -> & Ho). by exists o, w.
Qed.

(** X11. [PlanTrip.post] on its successful path.  When the aggregated list is
    not empty, the start resolution yields a coordinate and every distance
    from it and between the records is defined, the function of the handler
    returns status 200 and a trip plan that holds every aggregated museum
    exactly as often as the aggregated list does, ordered as a
    nearest-neighbour tour from the start coordinate; and the response of
    the handler is that plan with that status, marshalled against
    [trip_output] in the world the function left. *)
Theorem plan_trip_success cities input w museums w1 p w2 :
  fetch_museums_for_cities requests_get cities w = (Ret museums, w1) ->
  museums <> [] ->
  resolve input museums w1 = (Ret (inr (Some p)), w2) ->
  route_ok geodesic (heap w2) p museums = true ->
  exists trip_plan w',
    plan_trip_body cities input w = (Ret (TripPlanBody trip_plan, 200%Z), w') /\
    Permutation trip_plan museums /\
    nearest_tour geodesic (heap w2) p trip_plan /\
    requests w' = requests w2 /\
    plan_trip cities input w =
      marshal_with field_format trip_output (ret (TripPlanBody trip_plan, 200%Z)) w'.
Proof.
  intros Hfetch Hne Hres Hok%route_ok_reach_inv.
  assert (Hbody : plan_trip_body cities input w = run_trip geodesic (Some p) museums w2)
    by (by rewrite (plan_trip_after_aggregation _ _ _ _ _ _ _ _ _ _ Hfetch Hne), Hres).
  revert Hbody. unfold run_trip, a_star_search. destruct p as [lat lon]. simpl.
  destruct (a_star_loop_spec geodesic (length museums) _ museums [] w2 (le_n _) Hok)
    as (out & w' & Hrun & Hperm & Hreq & _).
  destruct (a_star_loop_tour geodesic (length museums) _ museums [] w2 (le_n _) Hok)
    as (out2 & w3 & Hrun2 & Htour & _).
  rewrite Hrun in Hrun2. injection Hrun2 as <- <-.
  rewrite (bind_Ret _ _ _ _ _ Hrun). simpl. intros Hbody.
  exists out, w'. repeat (split; [done|]).
  unfold PlanTrip_post. by apply marshal_with_congr.
Qed.

(** What the function of [PlanTrip.post] can return: status 400 with one of
    four error messages, or status 200 with a trip plan. *)
Lemma plan_trip_body_replies cities input w b st w' :
  plan_trip_body cities input w = (Ret (b, st), w') ->
  (st = 400%Z /\ exists msg, b = ErrorBody msg /\ msg ∈ plan_trip_errors) \/
  (st = 200%Z /\ exists trip_plan, b = TripPlanBody trip_plan).
Proof.
  unfold PlanTrip_post_body. unfold bind at 1.
  destruct (fetch_museums_for_cities requests_get cities w) as [[[|m ms]|e|] w1];
    try done.
  - intros [= <- <- <-]. left. split; [done|]. eexists. split; [done|].
    unfold plan_trip_errors. rewrite !elem_of_cons. auto.
  - unfold bind at 1.
    destruct (resolve_start_any input (m :: ms) w1) as (o & w2 & -> & _ & _ & Ho).
    destruct o as [[[b0 st0]|sl]|e|]; try done.
    + intros [= <- <- <-]. by left.
    + destruct Ho as [p ->]. unfold run_trip, bind.
      destruct (a_star_search geodesic _ (m :: ms) w2) as [[[t r]|e|] w3]; try done.
      intros [= <- <- <-]. right. split; [done|]. by eexists.
Qed.

(** X12. Whatever [PlanTrip.post] answers is either status 400 with the body
    [{"trip_plan": null}], the function having returned one of four error
    messages that the response does not carry, or status 200 with a body
    [{"trip_plan": items}] that has one item per stop of the plan the
    function returned.  The function never returns "Could not determine
    start location": the test [if not start_location] cannot succeed, each
    branch before it having either returned or bound a point. *)
Theorem plan_trip_responses cities input w out st w' :
  plan_trip cities input w = (Ret (out, st), w') ->
  exists b,
    plan_trip_body cities input w = (Ret (b, st), w') /\
    ((st = 400%Z /\ out = null_plan /\
      exists msg, b = ErrorBody msg /\ msg ∈ plan_trip_errors) \/
     (st = 200%Z /\
      exists trip_plan items,
        b = TripPlanBody trip_plan /\ out = plan_of items /\
        length items = length trip_plan)) /\
    b <> ErrorBody "Could not determine start location. Please try again.".
Proof.
  unfold PlanTrip_post. rewrite marshal_with_eq.
  destruct (plan_trip_body cities input w) as [[[b st0]|e|] w1] eqn:Hbody; [|done|done].
  pose proof (plan_trip_body_replies _ _ _ _ _ _ Hbody) as Hcases.
  destruct Hcases as [(-> & msg & -> & Hmsg)|(-> & t & ->)].
  - simpl. intros [= <- <- <-]. eexists. split; [done|]. split.
    + left. split; [done|]. split; [done|]. by exists msg.
    + intros [= ->]. unfold plan_trip_errors in Hmsg.
      rewrite !elem_of_cons in Hmsg. rewrite elem_of_nil in Hmsg.
      destruct Hmsg as [H|[H|[H|[H|[]]]]]; discriminate H.
  - cbn [body_object]. unfold bind.
    destruct (objects t w1) as [[records|e|] w2] eqn:Hobjs; [|done|done].
    unfold ret. fold (plan_of records). rewrite marshal_plan.
    destruct (omap _ records) as [items|e] eqn:Hitems; [|done].
    simpl. intros [= <- <- <-]. eexists. split; [done|]. split; [|done].
    right. split; [done|]. exists t, items. split; [done|]. split; [done|].
    by rewrite (omap_length _ _ _ Hitems), (objects_length _ _ _ _ Hobjs).
Qed.

Lemma next_by_name_cons input l rest w :
  next_by_name str_lower input (l :: rest) w =
  match heap w !! l with
  | Some d =>
      match d !! "name" with
      | Some (PStr name) =>
          if String.eqb (str_lower input) (str_lower name) then (Ret (Some l), w)
          else next_by_name str_lower input rest w
      | Some _ => (Raise AttributeError, w)
      | None => (Raise KeyError, w)
      end
  | None => (Raise SystemError, w)
  end.
Proof.
  cbn [next_by_name]. unfold bind at 1. rewrite getitem_eq.
  destruct (heap w !! l) as [d|]; [|done].
  destruct (d !! "name") as [v|]; [|done]. simpl. unfold bind, call.
  destruct v; try done. simpl. by destruct (String.eqb _ _).
Qed.

Lemma next_by_name_skip input pre rest w :
  (forall l, l ∈ pre -> name_matches str_lower (heap w) input l = Some false) ->
  next_by_name str_lower input (pre ++ rest) w = next_by_name str_lower input rest w.
Proof.
  induction pre as [|m pre IH]; intros Hpre; [done|].
  rewrite <- app_comm_cons.
  rewrite (next_by_name_step _ _ _ _ _ false) by (apply Hpre; by left).
  apply IH. intros l Hl. apply Hpre. by right.
Qed.

Lemma plan_trip_body_bad_name cities input w pre l post w1 d :
  fetch_museums_for_cities requests_get cities w = (Ret (pre ++ l :: post), w1) ->
  str_lower input <> "current location" ->
  (forall l', l' ∈ pre -> name_matches str_lower (heap w1) input l' = Some false) ->
  heap w1 !! l = Some d ->
  (d !! "name" = None -> plan_trip_body cities input w = (Raise KeyError, w1)) /\
  (forall v, d !! "name" = Some v -> (forall s, v <> PStr s) ->
     plan_trip_body cities input w = (Raise AttributeError, w1)).
Proof.
  intros Hfetch Hcur Hpre Hd.
  assert (Hne : pre ++ l :: post <> []) by (by destruct pre).
  rewrite (plan_trip_after_aggregation _ _ _ _ _ _ _ _ _ _ Hfetch Hne).
  assert (Hres : resolve input (pre ++ l :: post) w1 =
    match next_by_name str_lower input (l :: post) w1 with
    | (Ret chosen, w2) =>
        (match chosen with
         | Some chosen =>
             t <- truthy chosen ;;
             if t : bool then p <- point_of chosen ;; ret (inr (Some p))
             else start_from_number int_of_str input (pre ++ l :: post)
         | None => start_from_number int_of_str input (pre ++ l :: post)
         end) w2
    | (Raise e, w2) => (Raise e, w2)
    | (OutOfFuel, w2) => (OutOfFuel, w2)
    end).
  { unfold resolve_start. apply String.eqb_neq in Hcur. rewrite Hcur.
    unfold bind at 1. by rewrite (next_by_name_skip _ _ _ _ Hpre). }
  rewrite Hres, next_by_name_cons, Hd.
  split.
  - by intros ->.
  - intros v -> Hv. destruct v; try done. by destruct (Hv s).
Qed.

(** X13. A record whose [name] is missing, or is not a string (a JSON null,
    number, ...), makes the search of the start by name raise: [KeyError],
    respectively [AttributeError], comes out of [PlanTrip.post] instead of a
    400 response, when the input is not "current location" and no record
    before that one matches it. *)
Theorem plan_trip_bad_name cities input w pre l post w1 d :
  fetch_museums_for_cities requests_get cities w = (Ret (pre ++ l :: post), w1) ->
  str_lower input <> "current location" ->
  (forall l', l' ∈ pre -> name_matches str_lower (heap w1) input l' = Some false) ->
  heap w1 !! l = Some d ->
  (d !! "name" = None -> plan_trip cities input w = (Raise KeyError, w1)) /\
  (forall v, d !! "name" = Some v -> (forall s, v <> PStr s) ->
     plan_trip cities input w = (Raise AttributeError, w1)).
Proof.
  intros Hfetch Hcur Hpre Hd.
  destruct (plan_trip_body_bad_name _ _ _ _ _ _ _ _ Hfetch Hcur Hpre Hd)
    as [Hmissing Hother].
  unfold PlanTrip_post. split.
  - intros Hname. apply marshal_with_Raise. by apply Hmissing.
  - intros v Hname Hv. apply marshal_with_Raise. by apply (Hother v).
Qed.

Lemma plan_trip_body_effects cities input w museums w1 o w' :
  fetch_museums_for_cities requests_get cities w = (Ret museums, w1) ->
  plan_trip_body cities input w = (o, w') ->
  requests w' = requests w1 ++
    (if bool_decide (museums <> []) && String.eqb (str_lower input) "current location"
     then ["https://ipinfo.io"] else []) /\
  same_but_distance (heap w1) (heap w').
Proof.
  intros Hfetch. destruct museums as [|m ms].
  - unfold PlanTrip_post_body. rewrite (bind_Ret _ _ _ _ _ Hfetch).
    intros [= <- <-]. simpl. rewrite app_nil_r. split; [done|].
    apply same_but_distance_refl.
  - rewrite (plan_trip_after_aggregation _ _ _ _ _ _ _ _ _ _ Hfetch) by done.
    rewrite bool_decide_eq_true_2 by done. simpl.
    destruct (resolve_start_any input (m :: ms) w1) as (o1 & w2 & -> & Hheap & Hreq & Ho).
    rewrite <- Hreq, <- Hheap.
    destruct o1 as [[early|sl]|e|]; [| | |done].
    + intros [= <- <-]. split; [done|]. apply same_but_distance_refl.
    + destruct Ho as [p ->]. unfold run_trip, a_star_search, bind.
      destruct (a_star_loop_any geodesic (length (m :: ms))
                  (mkPoint (latitude p) (longitude p)) (m :: ms) [] w2)
        as (o2 & w3 & -> & Hreq3 & Hsame & _).
      destruct o2 as [[t r]|e|]; by intros [= <- <-].
    + intros [= <- <-]. split; [done|]. apply same_but_distance_refl.
Qed.

(** X14. After the aggregation, [PlanTrip.post] makes at most one more
    request, to the geolocation provider, and only when some museum was found
    and the lowered input is "current location"; and all it does to the
    records is setting [distance] fields.  This holds for every outcome,
    exceptions included. *)
Theorem plan_trip_effects cities input w museums w1 o w' :
  fetch_museums_for_cities requests_get cities w = (Ret museums, w1) ->
  plan_trip cities input w = (o, w') ->
  requests w' = requests w1 ++
    (if bool_decide (museums <> []) && String.eqb (str_lower input) "current location"
     then ["https://ipinfo.io"] else []) /\
  same_but_distance (heap w1) (heap w').
Proof.
  intros Hfetch Hrun.
  assert (Hw : w' = (plan_trip_body cities input w).2).
  { unfold PlanTrip_post in Hrun.
    by rewrite <- (marshal_with_world field_format trip_output), Hrun. }
  subst w'.
  apply (plan_trip_body_effects cities input w museums w1
           (plan_trip_body cities input w).1 _ Hfetch).
  apply surjective_pairing.
Qed.

End HandlersMore.

(** ** The further properties on the fixture *)

Lemma a_star_search_nearest_neighbour_witness :
  exists trip_plan w',
    a_star_search Fixture.geodesic Fixture.start [0; 1; 2]%nat Fixture.w3 =
      (Ret (trip_plan, []), w') /\
    nearest_tour Fixture.geodesic (heap Fixture.w3) Fixture.start trip_plan.
Proof.
  apply (a_star_search_nearest_neighbour Fixture.geodesic Fixture.start
           [0; 1; 2]%nat Fixture.w3).
  vm_compute; reflexivity.
Defined.

Lemma a_star_search_records_legs_witness :
  exists trip_plan w',
    a_star_search Fixture.geodesic Fixture.start [0; 1; 2]%nat Fixture.w3 =
      (Ret (trip_plan, []), w') /\
    legs_recorded Fixture.geodesic (heap w') Fixture.start trip_plan.
Proof.
  apply (a_star_search_records_legs Fixture.geodesic Fixture.start
           [0; 1; 2]%nat Fixture.w3).
  - vm_compute; reflexivity.
  - apply (proj1 (bool_decide_eq_true _)). vm_compute; reflexivity.
Defined.

Lemma a_star_search_missing_coordinate_witness :
  a_star_search Fixture.geodesic Fixture.start ([0%nat] ++ 1%nat :: [2%nat]) Fixture.w_bad =
    (Raise KeyError, Fixture.w_bad).
Proof.
  apply (a_star_search_missing_coordinate Fixture.geodesic Fixture.start
           [0%nat] 1%nat [2%nat] Fixture.w_bad
           (delete "latitude" (Fixture.record "Coptic Museum" "Cairo" 29.5 31))).
  - vm_compute; reflexivity.
  - vm_compute; reflexivity.
  - left. vm_compute; reflexivity.
Defined.

Lemma a_star_search_geodesic_raises_witness :
  a_star_search Fixture.geodesic Fixture.start ([0%nat] ++ 1%nat :: [2%nat]) Fixture.w_text =
    (Raise ValueError, Fixture.w_text).
Proof.
  apply (a_star_search_geodesic_raises Fixture.geodesic Fixture.start
           [0%nat] 1%nat [2%nat] Fixture.w_text
           (<["latitude" := PStr "north"]> (Fixture.record "Coptic Museum" "Cairo" 29.5 31))
           (mkPoint (PStr "north") (PFloat 31)) ValueError);
    vm_compute; reflexivity.
Defined.

Lemma get_current_location_parses_witness :
  get_current_location Fixture.requests_get Fixture.float_of_str Fixture.w0 =
    (Ret (PFloat 30, PFloat 31), after_geolocation Fixture.w0).
Proof.
  apply (get_current_location_parses Fixture.requests_get Fixture.float_of_str
           Fixture.w0
           (mkResponse 200
              (Returns (PDict (<["ip" := PStr "10.0.0.1"]> (<["loc" := PStr "30.0,31.0"]> ∅)))))
           (<["ip" := PStr "10.0.0.1"]> (<["loc" := PStr "30.0,31.0"]> ∅))
           "30.0" "31.0" 30%float 31%float);
    vm_compute; reflexivity.
Defined.

Lemma fetch_museum_data_records_witness :
  let d : dict :=
    <["id" := PInt 3]> (<["name" := PStr "Grand Egyptian Museum"]>
      (<["latitude" := PFloat 29.5]> (<["longitude" := PFloat 30]> ∅))) in
  exists ls w',
    fetch_museum_data Fixture.requests_get "Giza" Fixture.w0 =
      (Ret (Some (mkMuseumsDict "Giza" ls)), w') /\
    requests w' = requests Fixture.w0 ++ [museum_url "Giza"] /\
    length ls = length [d] /\ NoDup ls /\
    (forall l, l ∈ ls -> heap Fixture.w0 !! l = None) /\
    (forall l, is_Some (heap Fixture.w0 !! l) -> heap w' !! l = heap Fixture.w0 !! l) /\
    (forall i l d', ls !! i = Some l -> [d] !! i = Some d' ->
       exists r, heap w' !! l = Some r /\ r !! "id" = None /\
                 forall key, key <> "id" -> r !! key = d' !! key).
Proof.
  intros d.
  apply (fetch_museum_data_records Fixture.requests_get "Giza" Fixture.w0
           (mkResponse 200 (Returns (PList [PDict d]))) [d]);
    vm_compute; reflexivity.
Defined.

Lemma fetch_museum_data_bad_body_witness :
  exists w',
    fetch_museum_data Fixture.requests_get_odd "Object" Fixture.w0 =
      (Raise AttributeError, w') /\
    requests w' = [museum_url "Object"].
Proof.
  apply (proj1 (proj2
    (fetch_museum_data_bad_body Fixture.requests_get_odd "Object" Fixture.w0
       (mkResponse 200 (Returns (PDict (<["error" := PStr "unknown city"]> ∅))))
       (PDict (<["error" := PStr "unknown city"]> ∅))
       eq_refl eq_refl eq_refl))).
  right. left. eexists. split; [reflexivity|].
  intros H. apply (f_equal (fun m : dict => m !! "error")) in H.
  vm_compute in H. discriminate H.
Defined.

Lemma fetch_museums_for_cities_aborts_witness :
  exists w',
    fetch_museums_for_cities Fixture.requests_get (["Cairo"] ++ "Offline" :: ["Giza"])
      Fixture.w0 = (Raise RequestException, w') /\
    requests w' = requests Fixture.w0 ++ (museum_url <$> ["Cairo"]) ++ [museum_url "Offline"].
Proof.
  apply (fetch_museums_for_cities_aborts Fixture.requests_get ["Cairo"] "Offline"
           ["Giza"] Fixture.w0 RequestException);
    vm_compute; reflexivity.
Defined.

Lemma show_museums_response_witness :
  exists w',
    requests w' = requests Fixture.w0 ++ (museum_url <$> ["Cairo"; "Atlantis"; "Giza"]) /\
    ShowMuseums_post Fixture.requests_get Fixture.field_format
        ["Cairo"; "Atlantis"; "Giza"] Fixture.w0 =
      (if bool_decide (aggregate_spec Fixture.requests_get (requests Fixture.w0)
                         ["Cairo"; "Atlantis"; "Giza"] = [])
       then Ret (null_museum, 400%Z)
       else of_outcome
              (obind (omap (marshal (output Fixture.field_format) museum_output)
                        (PDict <$> aggregate_spec Fixture.requests_get (requests Fixture.w0)
                                     ["Cairo"; "Atlantis"; "Giza"]))
                     (fun items => Returns (PList items, 200%Z))), w').
Proof.
  apply (show_museums_response Fixture.requests_get Fixture.field_format
           ["Cairo"; "Atlantis"; "Giza"] Fixture.w0).
  vm_compute; reflexivity.
Defined.

(** The response of [ShowMuseums.post] on the fixture: the records of Cairo
    and Giza in that order, each projected on the fields of [museum_output]. *)
Example show_museums_runs :
  let item (name city : string) (lat lon : float) : pyobj :=
    PDict (<["name" := PStr name]> (<["latitude" := PFloat lat]>
          (<["longitude" := PFloat lon]> (<["city" := PStr city]>
          (<["imageUrl" := PNone]> ∅))))) in
  (ShowMuseums_post Fixture.requests_get Fixture.field_format
     ["Cairo"; "Atlantis"; "Giza"] Fixture.w0).1 =
  Ret (PList [ item "Egyptian Museum" "Cairo" 30%float 31%float;
               item "Coptic Museum" "Cairo" 29.5%float 31%float;
               item "Grand Egyptian Museum" "Giza" 29.5%float 30%float ], 200%Z).
Proof. vm_compute. reflexivity. Qed.

Lemma plan_trip_success_witness :
  let w1 := (fetch_museums_for_cities Fixture.requests_get ["Cairo"; "Giza"] Fixture.w0).2 in
  exists trip_plan w',
    PlanTrip_post_body Fixture.requests_get Fixture.geodesic Fixture.float_of_str
      Fixture.int_of_str Fixture.str_lower ["Cairo"; "Giza"] "coptic museum" Fixture.w0 =
      (Ret (TripPlanBody trip_plan, 200%Z), w') /\
    Permutation trip_plan [0; 1; 2]%nat /\
    nearest_tour Fixture.geodesic (heap w1) Fixture.start trip_plan /\
    requests w' = requests w1 /\
    PlanTrip_post Fixture.requests_get Fixture.geodesic Fixture.float_of_str
      Fixture.int_of_str Fixture.str_lower Fixture.field_format
      ["Cairo"; "Giza"] "coptic museum" Fixture.w0 =
      marshal_with Fixture.field_format trip_output
        (ret (TripPlanBody trip_plan, 200%Z)) w'.
Proof.
  intros w1.
  apply (plan_trip_success Fixture.requests_get Fixture.geodesic Fixture.float_of_str
           Fixture.int_of_str Fixture.str_lower Fixture.field_format
           ["Cairo"; "Giza"] "coptic museum"
           Fixture.w0 [0; 1; 2]%nat w1 Fixture.start w1).
  - vm_compute; reflexivity.
  - discriminate.
  - vm_compute; reflexivity.
  - vm_compute; reflexivity.
Defined.

Lemma plan_trip_responses_witness :
  exists b,
    PlanTrip_post_body Fixture.requests_get Fixture.geodesic Fixture.float_of_str
      Fixture.int_of_str Fixture.str_lower ["Cairo"; "Giza"] "4" Fixture.w0 =
      (Ret (b, 400%Z),
       (fetch_museums_for_cities Fixture.requests_get ["Cairo"; "Giza"] Fixture.w0).2) /\
    (((400 = 400)%Z /\ null_plan = null_plan /\
      exists msg, b = ErrorBody msg /\ msg ∈ plan_trip_errors) \/
     ((400 = 200)%Z /\
      exists trip_plan items,
        b = TripPlanBody trip_plan /\ null_plan = plan_of items /\
        length items = length trip_plan)) /\
    b <> ErrorBody "Could not determine start location. Please try again.".
Proof.
  apply (plan_trip_responses Fixture.requests_get Fixture.geodesic
           Fixture.float_of_str Fixture.int_of_str Fixture.str_lower Fixture.field_format
           ["Cairo"; "Giza"] "4" Fixture.w0 null_plan 400%Z
           (fetch_museums_for_cities Fixture.requests_get ["Cairo"; "Giza"] Fixture.w0).2).
  vm_compute; reflexivity.
Defined.

Lemma plan_trip_bad_name_witness :
  PlanTrip_post Fixture.requests_get_odd Fixture.geodesic Fixture.float_of_str
    Fixture.int_of_str Fixture.str_lower Fixture.field_format ["Nameless"] "1" Fixture.w0 =
  (Raise KeyError,
   (fetch_museums_for_cities Fixture.requests_get_odd ["Nameless"] Fixture.w0).2).
Proof.
  apply (proj1 (plan_trip_bad_name Fixture.requests_get_odd Fixture.geodesic
           Fixture.float_of_str Fixture.int_of_str Fixture.str_lower Fixture.field_format
           ["Nameless"] "1" Fixture.w0 [] 0%nat []
           (fetch_museums_for_cities Fixture.requests_get_odd ["Nameless"] Fixture.w0).2
           (<["city" := PStr "Nameless"]>
              (<["latitude" := PFloat 30]> (<["longitude" := PFloat 31]> ∅)))
           ltac:(vm_compute; reflexivity)
           ltac:(intros H; vm_compute in H; discriminate H)
           ltac:(intros l' H; by apply elem_of_nil in H)
           ltac:(vm_compute; reflexivity))).
  vm_compute; reflexivity.
Defined.

Lemma plan_trip_effects_witness :
  let w1 := (fetch_museums_for_cities Fixture.requests_get ["Cairo"; "Giza"] Fixture.w0).2 in
  let run :=
    PlanTrip_post Fixture.requests_get Fixture.geodesic Fixture.float_of_str
      Fixture.int_of_str Fixture.str_lower Fixture.field_format
      ["Cairo"; "Giza"] "Current Location" Fixture.w0 in
  requests run.2 = requests w1 ++ ["https://ipinfo.io"] /\
  same_but_distance (heap w1) (heap run.2).
Proof.
  intros w1 run.
  apply (plan_trip_effects Fixture.requests_get Fixture.geodesic Fixture.float_of_str
           Fixture.int_of_str Fixture.str_lower Fixture.field_format
           ["Cairo"; "Giza"] "Current Location"
           Fixture.w0 [0; 1; 2]%nat w1 run.1 run.2).
  - vm_compute; reflexivity.
  - apply surjective_pairing.
Defined.
